(** * Domain core of the weibo application ([app/models.py])

    A shallow embedding of the models of [app/models.py]: the permission
    bitmask and roles, user creation, credential and token checks, the
    follow graph and the followed-posts query, together with the writes
    each operation mirrors to the external ledger.

    Conventions of the embedding.
    - A Python [int] is a [Z]; [&] is [Z.land], which like Python's works
      on the infinite two's-complement representation.
    - A Python [str] is a [string] holding the UTF-8 bytes of the text, so
      that [s.encode('utf-8')] is the list of bytes of the string.
    - An attribute that can hold [None] is an [option].
    - An operation that can raise returns a [result].
    - The SQLAlchemy session is a unit of work.  An object handed to
      [db.session.add] stays pending until the next flush; it is the flush
      that inserts the row, gives it its primary key, copies the keys of
      related objects into its foreign-key columns and applies column
      defaults.  Until then those attributes of the object read [None].
      Every query flushes first (Flask-SQLAlchemy sessions have
      [autoflush] on), and so does [db.session.commit]. *)

From Stdlib Require Import ZArith List String Ascii Bool Lia DecimalString.
From Stdlib Require Import Permutation DecimalZ DecimalPos.
Import ListNotations.
Local Open Scope string_scope.
Local Open Scope Z_scope.

(** ** Python values *)

(** Exceptions the embedded code can end with. *)
Inductive exn : Type :=
| AttributeError (msg : string)
| BadSignature
| SignatureExpired.

Inductive result (A : Type) : Type :=
| Return (a : A)
| Raise (e : exn).
Arguments Return {A} a.
Arguments Raise {A} e.

(** [str(n)] for an [int]. *)
Definition str_int (n : Z) : string := NilZero.string_of_int (Z.to_int n).

(** [str(x)] for an attribute holding an [int] or [None]. *)
Definition str (x : option Z) : string :=
  match x with
  | Some n => str_int n
  | None => "None"
  end.

(** [a == b] on values that are an [int] or [None]. *)
Definition py_eq (a b : option Z) : bool :=
  match a, b with
  | Some x, Some y => x =? y
  | None, None => true
  | _, _ => false
  end.

(** [a == b] on values that are a [str] or [None]. *)
Definition py_str_eq (a b : option string) : bool :=
  match a, b with
  | Some x, Some y => String.eqb x y
  | None, None => true
  | _, _ => false
  end.

(** ** Permission *)

Module Permission.
Definition FOLLOW : Z := 0x01.
Definition COMMENT : Z := 0x02.
Definition WRITE_ARTICLES : Z := 0x04.
Definition MODERATE_COMMENTS : Z := 0x08.
Definition ADMINISTER : Z := 0x80.
End Permission.

(** ** Role *)

Module Role.
(** A [Role] object.  [id] is [None] while the object is pending (built
    but not yet inserted); the rows of table [roles] carry their key. *)
Record t : Type := mk {
  id : option Z;
  name : string;
  default : bool;
  permissions : Z
}.
End Role.

(** ** User *)

Module User.
(** The attributes of a [User] object the operations below read or
    write.  [id] is [None] for an object not yet inserted. *)
Record t : Type := mk {
  id : option Z;
  email : option string;
  username : option string;
  password_hash : option string;
  role : option Role.t;
  confirmed : bool;
  avatar_hash : option string
}.

(** Column [role_id], the key of the related role. *)
Definition role_id (u : t) : option Z :=
  match role u with
  | Some r => Role.id r
  | None => None
  end.
End User.

(** [class AnonymousUser(AnonymousUserMixin)]: the object has no state. *)
Inductive AnonymousUser : Type := anonymous.

(** ** Follow and Post *)

Module Follow.
(** The column attributes of a [Follow] object.  An object built by
    [Follow(follower=a, followed=b)] has all three unset: the flush
    copies the keys of the related users into the two key columns and
    applies the column default of [timestamp]. *)
Record t : Type := mk {
  follower_id : option Z;
  followed_id : option Z;
  timestamp : option Z
}.
End Follow.

Module Post.
(** A row of table [posts]. *)
Record t : Type := mk {
  id : Z;
  body : string;
  timestamp : Z;
  author_id : option Z
}.
End Post.

(** ** The audit ledger *)

(** The dictionaries the [to_blockchain] methods build.  Of a user's
    dictionary the attributes of [User.t] are kept; the counts it adds
    (posts, comments, followers) are left out. *)
Inductive snapshot : Type :=
| RoleSnapshot (id : option Z) (name : string) (is_default : bool)
               (permissions : Z)
| FollowSnapshot (follower_id followed_id timestamp : option Z)
| UserSnapshot (u : User.t).

Inductive ledger_op : Type :=
| Put (key : string) (value : snapshot)
| Delete (key : string).

(** The calls received by the ledger, oldest first. *)
Definition ledger : Type := list ledger_op.

(** Modelled from the spec: [blockchain.blockChainPut], of module
    [app/blockchain], which the sources do not include.  The spec gives the
    mirror a [put(key, value)] on a key-value ledger; the call is recorded. *)
Definition blockChainPut (key : string) (value : snapshot) (l : ledger)
  : ledger :=
  (l ++ [Put key value])%list.

(** Modelled from the spec: [blockchain.blockChainDelete], of module
    [app/blockchain], which the sources do not include.  The spec gives the
    mirror a [delete(key)]; the call is recorded. *)
Definition blockChainDelete (key : string) (l : ledger) : ledger :=
  (l ++ [Delete key])%list.

(** ** Configuration and outside services *)

(** [current_app.config]. *)
Record Config : Type := {
  SECRET_KEY : string;
  FLASK_ADMIN : option string
}.

(** A JSON object with integer or null members, as the tokens carry. *)
Definition dict : Type := list (string * option Z).

(** [d.get(k)]: [None] for a missing key. *)
Fixpoint dict_get (k : string) (d : dict) : option Z :=
  match d with
  | [] => None
  | (k', v) :: rest => if String.eqb k k' then v else dict_get k rest
  end.

(** The database: the key given to the next row inserted in [roles]. *)
Class Database : Type := {
  next_role_id : list Role.t -> Z
}.

(** itsdangerous: the signature of a header and payload under a key. *)
Class Signer : Type := {
  jws_signature : string -> Z -> Z -> dict -> Z
}.

(** werkzeug: whether a password hashes to a stored hash string. *)
Class Hasher : Type := {
  password_matches : string -> string -> bool
}.

(** [query.first()] on the rows a query selects. *)
Definition first {A : Type} (rows : list A) : option A := hd_error rows.

(** [column = value] in a [WHERE] or [ON] clause: never true on [NULL]. *)
Definition sql_eq (a b : option Z) : bool :=
  match a, b with
  | Some x, Some y => x =? y
  | _, _ => false
  end.

(** An attribute assignment on the first row a predicate selects (the
    object [first()] returned). *)
Fixpoint update_first {A : Type} (p : A -> bool) (f : A -> A) (l : list A)
  : list A :=
  match l with
  | [] => []
  | x :: rest => if p x then f x :: rest else x :: update_first p f rest
  end.

(** ** Permission checks *)

(** Both kinds of [current_user] answer [can] and [is_administrator]. *)
Class Principal (A : Type) : Type := {
  can : A -> Z -> bool;
  is_administrator : A -> bool
}.

(** [User.can]:
    [self.role is not None and
     (self.role.permissions & permissions) == permissions]. *)
Definition User_can (self : User.t) (permissions : Z) : bool :=
  match User.role self with
  | None => false
  | Some r => Z.land (Role.permissions r) permissions =? permissions
  end.

(** [AnonymousUser.can]: [return False]. *)
Definition AnonymousUser_can (self : AnonymousUser) (permissions : Z) : bool :=
  false.

#[export] Instance User_Principal : Principal User.t := {
  can := User_can;
  is_administrator := fun self => User_can self Permission.ADMINISTER
}.

#[export] Instance AnonymousUser_Principal : Principal AnonymousUser := {
  can := AnonymousUser_can;
  is_administrator := fun _ => false
}.

(** Every bit of [p] is set in [m]. *)
Definition bits_within (p m : Z) : Prop :=
  forall n : Z, Z.testbit p n = true -> Z.testbit m n = true.

(** ** [hashlib.md5] (RFC 1321) on 32-bit words held in [Z] *)

Module MD5.
Definition mask32 (x : Z) : Z := Z.land x 0xffffffff.
Definition add32 (x y : Z) : Z := mask32 (x + y).
Definition not32 (x : Z) : Z := Z.lxor x 0xffffffff.
Definition rotl32 (x c : Z) : Z :=
  mask32 (Z.lor (Z.shiftl x c) (Z.shiftr x (32 - c))).

(** [floor(2^32 * abs(sin(i + 1)))]. *)
Definition K : list Z :=
  [0xd76aa478; 0xe8c7b756; 0x242070db; 0xc1bdceee;
   0xf57c0faf; 0x4787c62a; 0xa8304613; 0xfd469501;
   0x698098d8; 0x8b44f7af; 0xffff5bb1; 0x895cd7be;
   0x6b901122; 0xfd987193; 0xa679438e; 0x49b40821;
   0xf61e2562; 0xc040b340; 0x265e5a51; 0xe9b6c7aa;
   0xd62f105d; 0x02441453; 0xd8a1e681; 0xe7d3fbc8;
   0x21e1cde6; 0xc33707d6; 0xf4d50d87; 0x455a14ed;
   0xa9e3e905; 0xfcefa3f8; 0x676f02d9; 0x8d2a4c8a;
   0xfffa3942; 0x8771f681; 0x6d9d6122; 0xfde5380c;
   0xa4beea44; 0x4bdecfa9; 0xf6bb4b60; 0xbebfbc70;
   0x289b7ec6; 0xeaa127fa; 0xd4ef3085; 0x04881d05;
   0xd9d4d039; 0xe6db99e5; 0x1fa27cf8; 0xc4ac5665;
   0xf4292244; 0x432aff97; 0xab9423a7; 0xfc93a039;
   0x655b59c3; 0x8f0ccc92; 0xffeff47d; 0x85845dd1;
   0x6fa87e4f; 0xfe2ce6e0; 0xa3014314; 0x4e0811a1;
   0xf7537e82; 0xbd3af235; 0x2ad7d2bb; 0xeb86d391].

(** Rotation amounts of the 64 steps. *)
Definition R : list Z :=
  [7; 12; 17; 22; 7; 12; 17; 22; 7; 12; 17; 22; 7; 12; 17; 22;
   5; 9; 14; 20; 5; 9; 14; 20; 5; 9; 14; 20; 5; 9; 14; 20;
   4; 11; 16; 23; 4; 11; 16; 23; 4; 11; 16; 23; 4; 11; 16; 23;
   6; 10; 15; 21; 6; 10; 15; 21; 6; 10; 15; 21; 6; 10; 15; 21].

Definition state : Type := (Z * Z * Z * Z)%type.

Definition init : state :=
  (0x67452301, 0xefcdab89, 0x98badcfe, 0x10325476).

(** Step [i] of the 64 on the 16-word block [M]. *)
Definition step (M : list Z) (st : state) (i : Z) : state :=
  let '(a, b, c, d) := st in
  let '(f, g) :=
    if i <? 16 then (Z.lor (Z.land b c) (Z.land (not32 b) d), i)
    else if i <? 32 then
      (Z.lor (Z.land d b) (Z.land (not32 d) c), (5 * i + 1) mod 16)
    else if i <? 48 then (Z.lxor (Z.lxor b c) d, (3 * i + 5) mod 16)
    else (Z.lxor c (Z.lor b (not32 d)), (7 * i) mod 16) in
  let f' := add32 (add32 (add32 f a) (nth (Z.to_nat i) K 0))
                  (nth (Z.to_nat g) M 0) in
  (d, add32 b (rotl32 f' (nth (Z.to_nat i) R 0)), b, c).

Definition block (st : state) (M : list Z) : state :=
  let '(a0, b0, c0, d0) := st in
  let '(a, b, c, d) := fold_left (step M) (map Z.of_nat (seq 0 64)) st in
  (add32 a0 a, add32 b0 b, add32 c0 c, add32 d0 d).

(** The little-endian 32-bit words of a byte list. *)
Fixpoint words (bs : list Z) : list Z :=
  match bs with
  | b0 :: b1 :: b2 :: b3 :: rest =>
      (b0 + Z.shiftl b1 8 + Z.shiftl b2 16 + Z.shiftl b3 24) :: words rest
  | _ => []
  end.

(** The [n] low bytes of [x], lowest first. *)
Definition le_bytes (n : nat) (x : Z) : list Z :=
  map (fun k => Z.land (Z.shiftr x (8 * Z.of_nat k)) 0xff) (seq 0 n).

(** The message, a [1] bit, zeros up to 56 modulo 64, then the bit
    length on 64 bits. *)
Definition pad (msg : list Z) : list Z :=
  let len := Z.of_nat (List.length msg) in
  let zeros := Z.to_nat ((55 - len) mod 64) in
  (msg ++ [0x80] ++ repeat 0 zeros
     ++ le_bytes 8 (Z.land (8 * len) 0xffffffffffffffff))%list.

Fixpoint blocks (fuel : nat) (ws : list Z) (st : state) : state :=
  match fuel, ws with
  | S fuel', _ :: _ => blocks fuel' (skipn 16 ws) (block st (firstn 16 ws))
  | _, _ => st
  end.

Definition digest (msg : list Z) : list Z :=
  let ws := words (pad msg) in
  let '(a, b, c, d) := blocks (List.length ws) ws init in
  (le_bytes 4 a ++ le_bytes 4 b ++ le_bytes 4 c ++ le_bytes 4 d)%list.

Definition hex_digit (x : Z) : ascii :=
  ascii_of_nat (Z.to_nat (if x <? 10 then 48 + x else 87 + x)).

Fixpoint hex (bs : list Z) : string :=
  match bs with
  | [] => EmptyString
  | b :: rest =>
      String (hex_digit (Z.shiftr b 4))
             (String (hex_digit (Z.land b 0xf)) (hex rest))
  end.
End MD5.

(** [s.encode('utf-8')]: the bytes of the text. *)
Definition encode_utf8 (s : string) : list Z :=
  map (fun c => Z.of_nat (nat_of_ascii c)) (list_ascii_of_string s).

(** [hashlib.md5(data).hexdigest()]. *)
Definition md5_hexdigest (data : list Z) : string := MD5.hex (MD5.digest data).

(** The spec's "lowercase-normalized" email, for ASCII text: the letters
    [A] to [Z] mapped to [a] to [z], as Python's [str.lower()] does on
    such text.  Bytes outside ASCII are left as they are, so the definition
    says nothing of other emails and is applied to ASCII emails only.  It
    follows the words of the spec; the source has no counterpart. *)
Definition spec_lowercase_char (c : ascii) : ascii :=
  let n := nat_of_ascii c in
  if ((65 <=? n) && (n <=? 90))%nat then ascii_of_nat (n + 32) else c.

Fixpoint spec_lowercase (s : string) : string :=
  match s with
  | EmptyString => EmptyString
  | String c rest => String (spec_lowercase_char c) (spec_lowercase rest)
  end.

(** ** The session on table [roles] *)

(** The rows of [roles] as the open transaction sees them, the [Role]
    objects added to the session and not yet inserted, and the ledger.
    An attribute assignment on an object loaded from a row is shown on the
    row at once: the [UPDATE] goes out with the next flush, and every read
    of the table flushes first. *)
Record RoleStore : Type := {
  roles : list Role.t;
  new_roles : list Role.t;
  role_ledger : ledger
}.

Definition insert_role `{Database} (table : list Role.t) (r : Role.t)
  : list Role.t :=
  (table ++ [Role.mk (Some (next_role_id table)) (Role.name r)
                     (Role.default r) (Role.permissions r)])%list.

(** The flush: pending roles are inserted and receive their key. *)
Definition flush_roles `{Database} (s : RoleStore) : RoleStore :=
  {| roles := fold_left insert_role (new_roles s) (roles s);
     new_roles := [];
     role_ledger := role_ledger s |}.

(** [Role.to_blockchain]. *)
Definition Role_to_blockchain (self : Role.t) : snapshot :=
  RoleSnapshot (Role.id self) (Role.name self) (Role.default self)
               (Role.permissions self).

(** The dictionary [roles] of [update_roles], in insertion order. *)
Definition roles_table : list (string * (Z * bool)) :=
  [("User",
    (Z.lor (Z.lor Permission.FOLLOW Permission.COMMENT)
           Permission.WRITE_ARTICLES, true));
   ("Moderator",
    (Z.lor (Z.lor (Z.lor Permission.FOLLOW Permission.COMMENT)
                  Permission.WRITE_ARTICLES)
           Permission.MODERATE_COMMENTS, false));
   ("Administrator", (0xff, false))].

Definition named (r : string) (x : Role.t) : bool := String.eqb (Role.name x) r.

(** The body of the loop of [update_roles] for the entry [r]. *)
Definition update_role `{Database} (s : RoleStore)
    (entry : string * (Z * bool)) : RoleStore :=
  let '(r, (perms, dflt)) := entry in
  (* role = Role.query.filter_by(name=r).first() *)
  let s := flush_roles s in
  match first (filter (named r) (roles s)) with
  | Some found =>
      (* role.permissions = roles[r][0]; role.default = roles[r][1] *)
      let role := Role.mk (Role.id found) (Role.name found) dflt perms in
      {| roles := update_first (named r) (fun _ => role) (roles s);
         new_roles := new_roles s;
         role_ledger :=
           blockChainPut ("weibo.role." ++ str (Role.id role))
                         (Role_to_blockchain role) (role_ledger s) |}
  | None =>
      (* role = Role(name=r), then the two assignments and session.add *)
      let role := Role.mk None r dflt perms in
      {| roles := roles s;
         new_roles := (new_roles s ++ [role])%list;
         role_ledger :=
           blockChainPut ("weibo.role." ++ str (Role.id role))
                         (Role_to_blockchain role) (role_ledger s) |}
  end.

(** [Role.update_roles]: the loop, then [db.session.commit()]. *)
Definition update_roles `{Database} (s : RoleStore) : RoleStore :=
  flush_roles (fold_left update_role roles_table s).

(** The table after one turn of the loop, once flushed: the row named [r]
    updated in place, or a new row at the end. *)
Definition upsert_role `{Database} (table : list Role.t)
    (entry : string * (Z * bool)) : list Role.t :=
  let '(r, (perms, dflt)) := entry in
  match first (filter (named r) table) with
  | Some found =>
      update_first (named r)
        (fun _ => Role.mk (Role.id found) (Role.name found) dflt perms) table
  | None => insert_role table (Role.mk None r dflt perms)
  end.

(** The [role.id] a turn of the loop reads for the role named [r], on the
    flushed table it queried: the key of the row found, and [None] for a
    role the turn creates, which has no key before the next flush. *)
Definition id_when_mirrored (table : list Role.t) (r : string) : option Z :=
  match first (filter (named r) table) with
  | Some found => Role.id found
  | None => None
  end.

(** ** [User.__init__] *)

(** The constructor of [User]: [kwargs] holds the attributes the caller
    gave, the others being [None].  The two role queries flush the session. *)
Definition User_init `{Database} (cfg : Config) (kwargs : User.t)
    (s : RoleStore) : User.t * RoleStore :=
  let self := kwargs in
  let '(self, s) :=
    match User.role self with
    | None =>
        let s := flush_roles s in
        let role :=
          if py_str_eq (User.email self) (FLASK_ADMIN cfg)
          then first (filter (fun r => Role.permissions r =? 0xff) (roles s))
          else first (filter (fun r => Role.default r) (roles s)) in
        (User.mk (User.id self) (User.email self) (User.username self)
                 (User.password_hash self) role (User.confirmed self)
                 (User.avatar_hash self), s)
    | Some _ => (self, s)
    end in
  let self :=
    match User.email self, User.avatar_hash self with
    | Some email, None =>
        User.mk (User.id self) (User.email self) (User.username self)
                (User.password_hash self) (User.role self)
                (User.confirmed self)
                (Some (md5_hexdigest (encode_utf8 email)))
    | _, _ => self
    end in
  (self, s).

(** ** [User.verify_password] *)

(** [werkzeug.security.check_password_hash(pwhash, password)].  Its first
    statement calls a string method on [pwhash] ([pwhash.count("$")]), so
    a [pwhash] of [None] ends in [AttributeError]; on a string the result
    is the comparison of the hashes. *)
Definition check_password_hash `{Hasher} (pwhash : option string)
    (password : string) : result bool :=
  match pwhash with
  | None => Raise (AttributeError "'NoneType' object has no attribute 'count'")
  | Some h => Return (password_matches h password)
  end.

(** [User.verify_password]. *)
Definition verify_password `{Hasher} (self : User.t) (password : string)
  : result bool :=
  check_password_hash (User.password_hash self) password.

(** ** Confirmation tokens *)

(** A token of [TimedJSONWebSignatureSerializer]: the header's issue and
    expiry times, the payload and the signature. *)
Record Token : Type := {
  iat : Z;
  exp : Z;
  payload : dict;
  signature : Z
}.

(** [Serializer(secret_key, expires_in).dumps(obj)] at time [now]. *)
Definition dumps `{Signer} (secret_key : string) (expires_in now : Z)
    (obj : dict) : Token :=
  {| iat := now;
     exp := now + expires_in;
     payload := obj;
     signature := jws_signature secret_key now (now + expires_in) obj |}.

(** [Serializer(secret_key).loads(token)] at time [now]: the signature is
    checked first, then the expiry date of the header. *)
Definition loads `{Signer} (secret_key : string) (now : Z) (token : Token)
  : result dict :=
  if negb (signature token
           =? jws_signature secret_key (iat token) (exp token) (payload token))
  then Raise BadSignature
  else if exp token <? 0 then Raise BadSignature
  else if exp token <? now then Raise SignatureExpired
  else Return (payload token).

(** The objects handed to [db.session.add] and the ledger. *)
Record UserStore : Type := {
  session_users : list User.t;
  user_ledger : ledger
}.

(** [User.generate_confirmation_token], called at time [now]. *)
Definition generate_confirmation_token `{Signer} (cfg : Config) (now : Z)
    (self : User.t) (expiration : Z) : Token :=
  dumps (SECRET_KEY cfg) expiration now [("confirm", User.id self)].

(** [User.to_blockchain]. *)
Definition User_to_blockchain (self : User.t) : snapshot := UserSnapshot self.

(** [self] after [self.confirmed = True]. *)
Definition confirmed_user (self : User.t) : User.t :=
  User.mk (User.id self) (User.email self) (User.username self)
          (User.password_hash self) (User.role self) true
          (User.avatar_hash self).

(** [User.confirm], called at time [now]: the result, the object [self]
    afterwards and the store afterwards. *)
Definition confirm `{Signer} (cfg : Config) (now : Z) (self : User.t)
    (token : Token) (s : UserStore) : bool * User.t * UserStore :=
  match loads (SECRET_KEY cfg) now token with
  | Raise _ => (false, self, s)
  | Return data =>
      if negb (py_eq (dict_get "confirm" data) (User.id self))
      then (false, self, s)
      else
        let self := confirmed_user self in
        (true, self,
         {| session_users := (session_users s ++ [self])%list;
            user_ledger :=
              blockChainPut ("weibo.user." ++ str (User.id self))
                            (User_to_blockchain self) (user_ledger s) |})
  end.

(** The store after a successful [confirm]. *)
Definition confirmed_store (self : User.t) (s : UserStore) : UserStore :=
  {| session_users := (session_users s ++ [confirmed_user self])%list;
     user_ledger :=
       (user_ledger s
        ++ [Put ("weibo.user." ++ str (User.id self))
                (UserSnapshot (confirmed_user self))])%list |}.

(** ** The session on tables [follow] and [posts] *)

(** The rows of the two tables as the open transaction sees them, the
    [Follow] objects added and not yet inserted (each as the pair of users
    its relationships [follower] and [followed] point to), the rows marked
    by [db.session.delete], the clock read by the column default of
    [timestamp], and the ledger. *)
Record FollowStore : Type := {
  follows : list Follow.t;
  new_follows : list (User.t * User.t);
  deleted_follows : list Follow.t;
  posts : list Post.t;
  utcnow : Z;
  follow_ledger : ledger
}.

(** Two [Follow] objects with the same composite primary key. *)
Definition same_key (f g : Follow.t) : bool :=
  sql_eq (Follow.follower_id f) (Follow.follower_id g)
  && sql_eq (Follow.followed_id f) (Follow.followed_id g).

(** The flush: each pending object is inserted with the keys of its two
    users and the current time; the rows marked for deletion go. *)
Definition flush_follows (s : FollowStore) : FollowStore :=
  let inserted :=
    (follows s
     ++ map (fun p => Follow.mk (User.id (fst p)) (User.id (snd p))
                                (Some (utcnow s)))
            (new_follows s))%list in
  {| follows :=
       filter (fun f => negb (existsb (same_key f) (deleted_follows s)))
              inserted;
     new_follows := [];
     deleted_follows := [];
     posts := posts s;
     utcnow := utcnow s;
     follow_ledger := follow_ledger s |}.

(** [Follow.to_blockchain]. *)
Definition Follow_to_blockchain (self : Follow.t) : snapshot :=
  FollowSnapshot (Follow.follower_id self) (Follow.followed_id self)
                 (Follow.timestamp self).

(** Relationship [User.followed]: the rows whose [follower_id] is the
    user's key. *)
Definition followed (self : User.t) (s : FollowStore) : list Follow.t :=
  filter (fun f => sql_eq (Follow.follower_id f) (User.id self)) (follows s).

(** Relationship [User.followers]: the rows whose [followed_id] is the
    user's key. *)
Definition followers (self : User.t) (s : FollowStore) : list Follow.t :=
  filter (fun f => sql_eq (Follow.followed_id f) (User.id self)) (follows s).

(** [User.is_following]. *)
Definition is_following (self user : User.t) (s : FollowStore)
  : bool * FollowStore :=
  let s := flush_follows s in
  match first (filter (fun f => sql_eq (Follow.followed_id f) (User.id user))
                      (followed self s)) with
  | Some _ => (true, s)
  | None => (false, s)
  end.

(** [User.is_followed_by]. *)
Definition is_followed_by (self user : User.t) (s : FollowStore)
  : bool * FollowStore :=
  let s := flush_follows s in
  match first (filter (fun f => sql_eq (Follow.follower_id f) (User.id user))
                      (followers self s)) with
  | Some _ => (true, s)
  | None => (false, s)
  end.

(** [User.set_follow].  [Follow(follower=self, followed=user)] sets the two
    relationships of the new object; nothing flushes between its creation
    and the call to the ledger, so [f.follower_id], [f.followed_id] and
    [f.timestamp] still read [None] there. *)
Definition set_follow (self user : User.t) (s : FollowStore) : FollowStore :=
  let '(following, s) := is_following self user s in
  if negb following then
    (* f = Follow(follower=self, followed=user) *)
    let f := Follow.mk None None None in
    {| follows := follows s;
       new_follows := (new_follows s ++ [(self, user)])%list;
       deleted_follows := deleted_follows s;
       posts := posts s;
       utcnow := utcnow s;
       follow_ledger :=
         blockChainPut ("weibo.follow." ++ str (Follow.follower_id f)
                        ++ "/" ++ str (Follow.followed_id f))
                       (Follow_to_blockchain f) (follow_ledger s) |}
  else s.

(** [User.set_unfollow].  Here [f] is a row the query loaded, with its
    columns set. *)
Definition set_unfollow (self user : User.t) (s : FollowStore) : FollowStore :=
  let s := flush_follows s in
  match first (filter (fun f => sql_eq (Follow.followed_id f) (User.id user))
                      (followed self s)) with
  | Some f =>
      {| follows := follows s;
         new_follows := new_follows s;
         deleted_follows := (deleted_follows s ++ [f])%list;
         posts := posts s;
         utcnow := utcnow s;
         follow_ledger :=
           blockChainDelete ("weibo.follow." ++ str (Follow.follower_id f)
                             ++ "/" ++ str (Follow.followed_id f))
                            (follow_ledger s) |}
  | None => s
  end.

(** [User.followed_posts], the query run: the posts joined to the follow
    rows on [Follow.followed_id == Post.author_id], kept where
    [Follow.follower_id == self.id].  The query has no [ORDER BY], so the
    engine may return the rows in any order; the list has them in the
    order of table [posts], which is one of those orders.  What holds of
    the query is what does not depend on that order. *)
Definition followed_posts (self : User.t) (s : FollowStore)
  : list Post.t * FollowStore :=
  let s := flush_follows s in
  (flat_map
     (fun p =>
        flat_map
          (fun f =>
             if sql_eq (Follow.followed_id f) (Post.author_id p)
                && sql_eq (Follow.follower_id f) (User.id self)
             then [p] else [])
          (follows s))
     (posts s),
   s).

(** The directed edge from [a] to [b] is in the table the queries read. *)
Definition has_edge (a b : User.t) (s : FollowStore) : Prop :=
  exists f,
    In f (follows (flush_follows s))
    /\ sql_eq (Follow.follower_id f) (User.id a) = true
    /\ sql_eq (Follow.followed_id f) (User.id b) = true.

(** The rows of the table for the edge from [a] to [b]. *)
Definition edges (a b : User.t) (s : FollowStore) : list Follow.t :=
  filter (fun f => sql_eq (Follow.follower_id f) (User.id a)
                   && sql_eq (Follow.followed_id f) (User.id b))
         (follows (flush_follows s)).

(** Some user [self] follows wrote the post [p]. *)
Definition by_followed (self : User.t) (rows : list Follow.t) (p : Post.t)
  : bool :=
  existsb (fun f => sql_eq (Follow.followed_id f) (Post.author_id p)
                    && sql_eq (Follow.follower_id f) (User.id self))
          rows.

(** The composite primary key of a [Follow] row. *)
Definition follow_key (f : Follow.t) : option Z * option Z :=
  (Follow.follower_id f, Follow.followed_id f).

(** The posts of a list come newest first. *)
Fixpoint newest_first (l : list Post.t) : bool :=
  match l with
  | p :: ((q :: _) as rest) =>
      (Post.timestamp q <=? Post.timestamp p) && newest_first rest
  | _ => true
  end.

(** ** Sample services and data, for running the definitions *)

Module Sample.
(** Keys as SQLite gives them: one more than the largest in use. *)
#[export] Instance database : Database := {
  next_role_id table :=
    1 + fold_left Z.max
          (map (fun r => match Role.id r with Some i => i | None => 0 end)
               table) 0
}.

#[export] Instance signer : Signer := {
  jws_signature key iat exp obj :=
    Z.of_nat (String.length key) + 31 * iat + 37 * exp
    + match dict_get "confirm" obj with Some i => 41 * i | None => 7 end
}.

#[export] Instance hasher : Hasher := {
  password_matches h password := String.eqb h ("plain$$" ++ password)
}.

Definition cfg : Config :=
  {| SECRET_KEY := "hard to guess string";
     FLASK_ADMIN := Some "admin@example.com" |}.

Definition alice : User.t :=
  User.mk (Some 1) (Some "alice@example.com") (Some "alice") None None
          false None.

Definition bob : User.t :=
  User.mk (Some 2) (Some "bob@example.com") (Some "bob") None None
          false None.

Definition no_roles : RoleStore :=
  {| roles := []; new_roles := []; role_ledger := [] |}.

(** A table holding an outdated moderator role. *)
Definition stale_roles : RoleStore :=
  {| roles := [Role.mk (Some 5) "Moderator" true 0x01];
     new_roles := []; role_ledger := [] |}.

(** The table after a first [update_roles]. *)
Definition seeded_roles : RoleStore := update_roles no_roles.

Definition admin_signup : User.t :=
  User.mk None (Some "admin@example.com") (Some "admin") None None
          false None.

Definition upper_case_signup : User.t :=
  User.mk None (Some "A@b.c") (Some "a1") None None false None.

Definition lower_case_signup : User.t :=
  User.mk None (Some "a@b.c") (Some "a2") None None false None.

(** Alice's confirmation token, issued at time 100 for an hour. *)
Definition alice_token : Token :=
  generate_confirmation_token cfg 100 alice 3600.

Definition no_users : UserStore :=
  {| session_users := []; user_ledger := [] |}.

(** Alice follows Bob, whose two posts are stored oldest first. *)
Definition feed : FollowStore :=
  {| follows := [Follow.mk (Some 1) (Some 2) (Some 5)];
     new_follows := []; deleted_follows := [];
     posts := [Post.mk 1 "first" 10 (Some 2); Post.mk 2 "other" 15 (Some 3);
               Post.mk 3 "second" 20 (Some 2)];
     utcnow := 1000; follow_ledger := [] |}.

Definition empty_graph : FollowStore :=
  {| follows := []; new_follows := []; deleted_follows := [];
     posts := []; utcnow := 1000; follow_ledger := [] |}.
End Sample.

(** ** Authentication tokens *)

(** The exception a subscript on a dictionary can end with. *)
Inductive lookup_exn : Type :=
| KeyError (key : string).

(** [d[k]]: the member, or nothing when the key is missing. *)
Fixpoint dict_item (k : string) (d : dict) : option (option Z) :=
  match d with
  | [] => None
  | (k', v) :: rest => if String.eqb k k' then Some v else dict_item k rest
  end.

(** [User.query.get(ident)] on the rows of table [users]: the row with
    that primary key; a null key loads no row. *)
Definition query_get (ident : option Z) (users : list User.t)
  : option User.t :=
  first (filter (fun u => sql_eq (User.id u) ident) users).

(** [User.generate_auth_token], called at time [now]. *)
Definition generate_auth_token `{Signer} (cfg : Config) (now : Z)
    (self : User.t) (expiration : Z) : Token :=
  dumps (SECRET_KEY cfg) expiration now [("id", User.id self)].

(** [User.verify_auth_token], called at time [now]: the [try] covers
    [loads] only, the subscript [data['id']] is outside it. *)
Definition verify_auth_token `{Signer} (cfg : Config) (now : Z)
    (token : Token) (users : list User.t) : lookup_exn + option User.t :=
  match loads (SECRET_KEY cfg) now token with
  | Raise _ => inr None
  | Return data =>
      match dict_item "id" data with
      | None => inl (KeyError "id")
      | Some ident => inr (query_get ident users)
      end
  end.

(** ** [User.gravatar] *)

(** [x or y] on a string or [None]: [x] when it is a non-empty string. *)
Definition truthy (x : option string) : option string :=
  match x with
  | Some EmptyString => None
  | other => other
  end.

(** [User.gravatar(size, default, rating)], with [request.is_secure]. *)
Definition gravatar (is_secure : bool) (self : User.t) (size : Z)
    (default rating : string) : result string :=
  let url :=
    if is_secure then "https://secure.gravatar.com/avatar"
    else "http://www.gravatar.com/avatar" in
  let hash :=
    match truthy (User.avatar_hash self) with
    | Some h => Return h
    | None =>
        match User.email self with
        | Some email => Return (md5_hexdigest (encode_utf8 email))
        | None =>
            Raise (AttributeError "'NoneType' object has no attribute 'encode'")
        end
    end in
  match hash with
  | Return h =>
      Return (url ++ "/" ++ h ++ "?s=" ++ str_int size ++ "&d=" ++ default
              ++ "&r=" ++ rating)
  | Raise e => Raise e
  end.

(** ** The [password] setter *)

(** werkzeug: [generate_password_hash], with the salt it draws made an
    argument, and its contract with [check_password_hash]. *)
Class HashGenerator `{Hasher} : Type := {
  generate_password_hash : string -> string -> string;
  generated_hash_matches :
    forall salt password,
      password_matches (generate_password_hash salt password) password = true
}.


(** ** Migration [a05ab3048294] *)

Module Migration.
(** [sa.Column(name, type, nullable=...)]. *)
Record Column : Type := {
  col_name : string;
  col_type : string;
  nullable : bool
}.

(** A table: its columns, and its rows as the values by column name
    ([None] for [NULL]). *)
Record Table : Type := {
  columns : list Column;
  rows : list (list (string * option string))
}.

(** The tables of the database by name. *)
Definition Schema : Type := list (string * Table).

Fixpoint get_table (name : string) (db : Schema) : option Table :=
  match db with
  | [] => None
  | (n, t) :: rest => if String.eqb n name then Some t else get_table name rest
  end.

Fixpoint set_table (name : string) (t : Table) (db : Schema) : Schema :=
  match db with
  | [] => []
  | (n, old) :: rest =>
      if String.eqb n name then (n, t) :: rest
      else (n, old) :: set_table name t rest
  end.

Definition has_column (c : string) (t : Table) : bool :=
  existsb (fun col => String.eqb (col_name col) c) (columns t).

(** [op.drop_column(table, column)]: the column and its values go; the
    database refuses the statement ([None]) when the table or the column
    does not exist. *)
Definition drop_column (table column : string) (db : Schema)
  : option Schema :=
  match get_table table db with
  | None => None
  | Some t =>
      if has_column column t then
        Some (set_table table
                {| columns :=
                     filter (fun col => negb (String.eqb (col_name col) column))
                            (columns t);
                   rows :=
                     map (filter (fun kv => negb (String.eqb (fst kv) column)))
                         (rows t) |}
                db)
      else None
  end.

(** [op.add_column(table, column)], for a column without default: the
    column is added last and every row holds [NULL] in it; the database
    refuses the statement when the table does not exist or the column
    exists already. *)
Definition add_column (table : string) (column : Column) (db : Schema)
  : option Schema :=
  match get_table table db with
  | None => None
  | Some t =>
      if has_column (col_name column) t then None
      else
        Some (set_table table
                {| columns := (columns t ++ [column])%list;
                   rows :=
                     map (fun row => (row ++ [(col_name column, None)])%list)
                         (rows t) |}
                db)
  end.

(** [upgrade()]. *)
Definition upgrade (db : Schema) : option Schema :=
  drop_column "posts" "language" db.

(** [downgrade()]. *)
Definition downgrade (db : Schema) : option Schema :=
  add_column "posts"
    {| col_name := "language"; col_type := "VARCHAR(5)"; nullable := true |}
    db.
End Migration.

(** ** Character classes *)

(** A lowercase hexadecimal digit. *)
Definition is_hex_digit (c : ascii) : bool :=
  let n := nat_of_ascii c in
  ((48 <=? n) && (n <=? 57) || (97 <=? n) && (n <=? 102))%nat.

(** No character of the string is a slash. *)
Fixpoint no_slash (s : string) : bool :=
  match s with
  | EmptyString => true
  | String c rest => negb (Ascii.eqb c "/") && no_slash rest
  end.

(** ** More sample data *)

Module Demo.
(** Carol has not been inserted yet. *)
Definition carol : User.t :=
  User.mk None (Some "carol@example.com") (Some "carol") None None
          false None.

Definition users : list User.t := [Sample.alice; Sample.bob].

#[export] Instance generator : @HashGenerator Sample.hasher := {
  generate_password_hash salt password := "plain$$" ++ password;
  generated_hash_matches salt password :=
    String.eqb_refl ("plain$$" ++ password)
}.

(** A guest role flagged default next to an outdated ordinary role. *)
Definition custom_roles : RoleStore :=
  {| roles := [Role.mk (Some 4) "Guest" false 0x00;
               Role.mk (Some 9) "User" false 0x01];
     new_roles := []; role_ledger := [] |}.

(** Table [posts] before the migration, with one row. *)
Definition before_migration : Migration.Schema :=
  [("users",
    {| Migration.columns :=
         [{| Migration.col_name := "id"; Migration.col_type := "INTEGER";
             Migration.nullable := false |}];
       Migration.rows := [[("id", Some "1")]] |});
   ("posts",
    {| Migration.columns :=
         [{| Migration.col_name := "id"; Migration.col_type := "INTEGER";
             Migration.nullable := false |};
          {| Migration.col_name := "body"; Migration.col_type := "TEXT";
             Migration.nullable := true |};
          {| Migration.col_name := "language";
             Migration.col_type := "VARCHAR(5)";
             Migration.nullable := true |}];
       Migration.rows :=
         [[("id", Some "1"); ("body", Some "hello"); ("language", Some "en")]]
    |})].

(** The same database without column [language]. *)
Definition after_migration : Migration.Schema :=
  [("users",
    {| Migration.columns :=
         [{| Migration.col_name := "id"; Migration.col_type := "INTEGER";
             Migration.nullable := false |}];
       Migration.rows := [[("id", Some "1")]] |});
   ("posts",
    {| Migration.columns :=
         [{| Migration.col_name := "id"; Migration.col_type := "INTEGER";
             Migration.nullable := false |};
          {| Migration.col_name := "body"; Migration.col_type := "TEXT";
             Migration.nullable := true |}];
       Migration.rows := [[("id", Some "1"); ("body", Some "hello")]] |})].
End Demo.

(** * Properties *)

(** ** Permission checks *)

Lemma land_eq_bits_within (m p : Z) : Z.land m p = p <-> bits_within p m.
Proof.
  unfold bits_within; split.
  - intros E n Hp. rewrite <- E in Hp. rewrite Z.land_spec in Hp.
    apply andb_prop in Hp. tauto.
  - intros H. apply Z.bits_inj'. intros n _. rewrite Z.land_spec.
    destruct (Z.testbit p n) eqn:Hp.
    + rewrite (H n Hp). reflexivity.
    + apply andb_false_r.
Qed.

(** The scenario of the spec: role "User" holds [0x07]. *)
Example can_user_role_scenario :
  let r := Role.mk (Some 1) "User" true 0x07 in
  let u := User.mk (Some 1) None None None (Some r) false None in
  (can u Permission.COMMENT, can u Permission.MODERATE_COMMENTS,
   can u Permission.ADMINISTER) = (true, false, false).
Proof. reflexivity. Qed.

(** C1. For an identity holding role [r], [can p] is true exactly when
    [(r.permissions & p) == p], that is when every bit of [p] is set in
    [r.permissions]; an identity whose role is [None], and the anonymous
    user, are refused every permission. *)
Theorem can_iff_bitmask_contained :
  (forall (u : User.t) (r : Role.t) (p : Z),
      User.role u = Some r ->
      (can u p = true <-> Z.land (Role.permissions r) p = p)
      /\ (can u p = true <-> bits_within p (Role.permissions r)))
  /\ (forall (u : User.t) (p : Z), User.role u = None -> can u p = false)
  /\ (forall (a : AnonymousUser) (p : Z), can a p = false).
Proof.
  split; [| split].
  - intros u r p Hr. cbn. unfold User_can. rewrite Hr.
    rewrite Z.eqb_eq. split; [reflexivity |].
    apply land_eq_bits_within.
  - intros u p Hr. cbn. unfold User_can. now rewrite Hr.
  - reflexivity.
Qed.

Lemma can_iff_bitmask_contained_witness :
  (can (User.mk (Some 7) None None None
                (Some (Role.mk (Some 2) "Moderator" false 0x0f)) true None)
       0x0a = true
   <-> Z.land 0x0f 0x0a = 0x0a)
  /\ can (User.mk (Some 8) None None None None true None) 0x01 = false.
Proof.
  split.
  - exact (proj1 (proj1 can_iff_bitmask_contained
                    (User.mk (Some 7) None None None
                       (Some (Role.mk (Some 2) "Moderator" false 0x0f))
                       true None)
                    _ 0x0a eq_refl)).
  - exact (proj1 (proj2 can_iff_bitmask_contained)
             (User.mk (Some 8) None None None None true None) 0x01 eq_refl).
Defined.

(** ** [hashlib.md5] *)

(** The test suite of RFC 1321, section A.5. *)
Example md5_test_suite :
  map (fun s => md5_hexdigest (encode_utf8 s))
      [EmptyString; "a"; "abc"; "message digest"; "abcdefghijklmnopqrstuvwxyz";
       "12345678901234567890123456789012345678901234567890123456789012345678901234567890"]
  = ["d41d8cd98f00b204e9800998ecf8427e";
     "0cc175b9c0f1b6a831c399e269772661";
     "900150983cd24fb0d6963f7d28e17f72";
     "f96b697d7cb7938d525a2f31aaf161d0";
     "c3fcd3d76192e4007dfb496cca67e13b";
     "57edf4a22be3c955ac49da2e2107b67a"].
Proof. vm_compute. reflexivity. Qed.

(** ** User creation *)

Lemma py_str_eq_spec (a b : option string) : py_str_eq a b = true <-> a = b.
Proof.
  destruct a as [x|], b as [y|]; simpl; try (split; congruence).
  rewrite String.eqb_eq. split; congruence.
Qed.

Lemma first_filter_Some {A : Type} (p : A -> bool) (l : list A) (x : A) :
  first (filter p l) = Some x -> In x l /\ p x = true.
Proof.
  intros E. apply filter_In. destruct (filter p l); [discriminate |].
  injection E as ->. now left.
Qed.

Lemma first_filter_None {A : Type} (p : A -> bool) (l : list A) :
  first (filter p l) = None -> forall x, In x l -> p x = false.
Proof.
  intros E x Hx. destruct (p x) eqn:Hp; [| reflexivity].
  assert (Hin : In x (filter p l)) by (apply filter_In; auto).
  destruct (filter p l); [destruct Hin | discriminate].
Qed.

Lemma first_filter_exists {A : Type} (p : A -> bool) (l : list A) :
  (exists x, In x l /\ p x = true) -> exists y, first (filter p l) = Some y.
Proof.
  intros [x [Hx Hp]]. destruct (first (filter p l)) as [y|] eqn:E.
  - now exists y.
  - rewrite (first_filter_None _ _ E x Hx) in Hp. discriminate.
Qed.

Lemma User_init_role `{Database} (cfg : Config) (kwargs : User.t)
    (s : RoleStore) :
  User.role kwargs = None ->
  User.role (fst (User_init cfg kwargs s))
  = if py_str_eq (User.email kwargs) (FLASK_ADMIN cfg)
    then first (filter (fun r => Role.permissions r =? 0xff)
                       (roles (flush_roles s)))
    else first (filter (fun r => Role.default r) (roles (flush_roles s))).
Proof.
  intros Hr. unfold User_init. rewrite Hr. cbn [User.email User.avatar_hash].
  destruct (User.email kwargs), (User.avatar_hash kwargs); reflexivity.
Qed.

(** C9. An identity created without a role gets, when its email equals the
    configured admin address, the role the table holds with permissions
    [0xff], and otherwise the role flagged default. *)
Theorem User_init_assigns_admin_or_default_role `{Database}
    (cfg : Config) (kwargs : User.t) (s : RoleStore) :
  User.role kwargs = None ->
  let u := fst (User_init cfg kwargs s) in
  let table := roles (flush_roles s) in
  (User.email kwargs = FLASK_ADMIN cfg ->
     User.role u = first (filter (fun r => Role.permissions r =? 0xff) table)
     /\ (forall r, User.role u = Some r ->
                   In r table /\ Role.permissions r = 0xff)
     /\ ((exists r, In r table /\ Role.permissions r = 0xff) ->
         exists r, User.role u = Some r))
  /\ (User.email kwargs <> FLASK_ADMIN cfg ->
     User.role u = first (filter (fun r => Role.default r) table)
     /\ (forall r, User.role u = Some r ->
                   In r table /\ Role.default r = true)
     /\ ((exists r, In r table /\ Role.default r = true) ->
         exists r, User.role u = Some r)).
Proof.
  intros Hr u table. subst u table. rewrite (User_init_role cfg kwargs s Hr).
  split; intros Hmail.
  - apply py_str_eq_spec in Hmail. rewrite Hmail.
    split; [reflexivity | split].
    + intros r E. apply first_filter_Some in E. now rewrite Z.eqb_eq in E.
    + intros [r [Hin Hp]]. apply first_filter_exists. exists r.
      now rewrite Z.eqb_eq.
  - destruct (py_str_eq (User.email kwargs) (FLASK_ADMIN cfg)) eqn:E.
    + apply py_str_eq_spec in E. contradiction.
    + split; [reflexivity | split].
      * intros r Er. now apply first_filter_Some in Er.
      * apply first_filter_exists.
Qed.

Lemma User_init_assigns_admin_or_default_role_witness :
  User.role Sample.admin_signup = None
  /\ User.role (fst (@User_init Sample.database Sample.cfg
                       Sample.admin_signup Sample.seeded_roles))
     = Some (Role.mk (Some 3) "Administrator" false 0xff)
  /\ User.role (fst (@User_init Sample.database Sample.cfg
                       Sample.lower_case_signup Sample.seeded_roles))
     = Some (Role.mk (Some 1) "User" true 0x07).
Proof.
  split; [reflexivity | split].
  - destruct (@User_init_assigns_admin_or_default_role Sample.database
                Sample.cfg Sample.admin_signup Sample.seeded_roles eq_refl)
      as [Hadmin _].
    destruct (Hadmin eq_refl) as [E _]. exact E.
  - destruct (@User_init_assigns_admin_or_default_role Sample.database
                Sample.cfg Sample.lower_case_signup Sample.seeded_roles
                eq_refl) as [_ Hother].
    assert (Hne : User.email Sample.lower_case_signup
                  <> FLASK_ADMIN Sample.cfg) by discriminate.
    destruct (Hother Hne) as [E _]. exact E.
Defined.

(** The claim that the fingerprint is the digest of the lowercase-normalized
    email fails: emails equal up to letter case get different fingerprints. *)
Lemma avatar_hash_differs_by_letter_case :
  User.avatar_hash (fst (@User_init Sample.database Sample.cfg
                           Sample.upper_case_signup Sample.no_roles))
  <> Some (md5_hexdigest (encode_utf8 (spec_lowercase "A@b.c")))
  /\ spec_lowercase "A@b.c" = spec_lowercase "a@b.c"
  /\ User.avatar_hash (fst (@User_init Sample.database Sample.cfg
                              Sample.upper_case_signup Sample.no_roles))
     <> User.avatar_hash (fst (@User_init Sample.database Sample.cfg
                                 Sample.lower_case_signup Sample.no_roles)).
Proof.
  split; [| split].
  - vm_compute. discriminate.
  - reflexivity.
  - vm_compute. discriminate.
Qed.

(** C3, amended. An identity created with an email and no fingerprint gets
    the MD5 hex digest of the UTF-8 bytes of the email exactly as given,
    with no case normalization, and two creations agree when their emails
    are the same. *)
Theorem avatar_hash_is_md5_of_email_as_given `{Database}
    (cfg : Config) (kwargs : User.t) (s : RoleStore) (email : string) :
  User.email kwargs = Some email ->
  User.avatar_hash kwargs = None ->
  let u := fst (User_init cfg kwargs s) in
  User.avatar_hash u = Some (md5_hexdigest (encode_utf8 email))
  /\ (forall (cfg' : Config) (kwargs' : User.t) (s' : RoleStore),
        User.email kwargs' = Some email ->
        User.avatar_hash kwargs' = None ->
        User.avatar_hash (fst (User_init cfg' kwargs' s'))
        = User.avatar_hash u).
Proof.
  assert (Hgen : forall c k t,
             User.email k = Some email -> User.avatar_hash k = None ->
             User.avatar_hash (fst (User_init c k t))
             = Some (md5_hexdigest (encode_utf8 email))).
  { intros c k t He Ha. unfold User_init.
    destruct (User.role k); cbn [User.email User.avatar_hash];
      rewrite He, Ha; reflexivity. }
  intros He Ha u. subst u. split.
  - now apply Hgen.
  - intros cfg' kwargs' s' He' Ha'. rewrite !Hgen; auto.
Qed.

Lemma avatar_hash_is_md5_of_email_as_given_witness :
  User.email Sample.lower_case_signup = Some "a@b.c"
  /\ User.avatar_hash Sample.lower_case_signup = None
  /\ User.avatar_hash (fst (@User_init Sample.database Sample.cfg
                              Sample.lower_case_signup Sample.no_roles))
     = Some "5d60d4e28066df254d5452f92c910092".
Proof.
  split; [reflexivity | split; [reflexivity |]].
  exact (proj1 (@avatar_hash_is_md5_of_email_as_given Sample.database
                  Sample.cfg Sample.lower_case_signup Sample.no_roles
                  "a@b.c" eq_refl eq_refl)).
Defined.

(** ** Credential check *)

Lemma verify_password_with_stored_hash `{Hasher} (u : User.t)
    (h password : string) :
  User.password_hash u = Some h ->
  verify_password u password = Return (password_matches h password).
Proof. intros E. unfold verify_password. now rewrite E. Qed.

(** C4, at the failing input. On an identity whose credential hash is
    unset, [verify_password] ends in [AttributeError] for every password
    instead of returning [False]. *)
Theorem verify_password_raises_on_unset_hash :
  forall (hasher : Hasher) (password : string),
    @verify_password hasher Sample.alice password
    = Raise (AttributeError "'NoneType' object has no attribute 'count'").
Proof. reflexivity. Qed.

(** ** Role reconciliation *)

Section UpdateRoles.
Context `{Database}.

Lemma flush_roles_no_pending (s : RoleStore) :
  new_roles s = [] -> flush_roles s = s.
Proof. destruct s as [t n l]; simpl; intros ->; reflexivity. Qed.

Lemma flush_roles_idempotent (s : RoleStore) :
  flush_roles (flush_roles s) = flush_roles s.
Proof. now apply flush_roles_no_pending. Qed.

Lemma named_spec (r : string) (x : Role.t) :
  named r x = true <-> Role.name x = r.
Proof. apply String.eqb_eq. Qed.

(** One turn of the loop, seen on the flushed table. *)
Lemma update_role_table (s : RoleStore) (entry : string * (Z * bool)) :
  roles (flush_roles (update_role s entry))
  = upsert_role (roles (flush_roles s)) entry.
Proof.
  destruct entry as [r [perms dflt]]. unfold update_role, upsert_role.
  destruct (first (filter (named r) (roles (flush_roles s)))); reflexivity.
Qed.

(** One turn of the loop mirrors the role with the id it reads then. *)
Lemma update_role_ledger_exact (s : RoleStore) (r : string) (perms : Z)
    (dflt : bool) :
  role_ledger (update_role s (r, (perms, dflt)))
  = (role_ledger s
     ++ [Put ("weibo.role."
              ++ str (id_when_mirrored (roles (flush_roles s)) r))
             (RoleSnapshot (id_when_mirrored (roles (flush_roles s)) r)
                           r dflt perms)])%list.
Proof.
  unfold update_role, id_when_mirrored.
  destruct (first (filter (named r) (roles (flush_roles s))))
    as [found|] eqn:E; [| reflexivity].
  apply first_filter_Some in E. destruct E as [_ E].
  apply named_spec in E. cbn. unfold blockChainPut. now rewrite E.
Qed.

Lemma update_roles_table (s : RoleStore) :
  roles (update_roles s)
  = fold_left upsert_role roles_table (roles (flush_roles s)).
Proof.
  unfold update_roles, roles_table. cbn [fold_left].
  now rewrite !update_role_table.
Qed.

(** *** [update_first] *)

Lemma update_first_first {A : Type} (p : A -> bool) (f : A -> A)
    (l : list A) :
  (forall x, p x = true -> p (f x) = true) ->
  first (filter p (update_first p f l)) = option_map f (first (filter p l)).
Proof.
  intros Hf. induction l as [|x l IH]; [reflexivity |].
  simpl. destruct (p x) eqn:Hp; simpl.
  - now rewrite (Hf x Hp).
  - now rewrite Hp.
Qed.

Lemma update_first_filter_other {A : Type} (p q : A -> bool) (f : A -> A)
    (l : list A) :
  (forall x, p x = true -> q x = false /\ q (f x) = false) ->
  filter q (update_first p f l) = filter q l.
Proof.
  intros Hf. induction l as [|x l IH]; [reflexivity |].
  simpl. destruct (p x) eqn:Hp; simpl.
  - destruct (Hf x Hp) as [-> ->]. reflexivity.
  - now rewrite IH.
Qed.

Lemma update_first_fixed {A : Type} (p : A -> bool) (f : A -> A)
    (l : list A) (x : A) :
  first (filter p l) = Some x -> f x = x -> update_first p f l = l.
Proof.
  intros E Hx. induction l as [|y l IH]; [reflexivity |].
  simpl in *. destruct (p y) eqn:Hp.
  - injection E as ->. now rewrite Hx.
  - now rewrite IH.
Qed.

Lemma update_first_map {A B : Type} (g : A -> B) (p : A -> bool)
    (f : A -> A) (l : list A) :
  (forall x, p x = true -> g (f x) = g x) ->
  map g (update_first p f l) = map g l.
Proof.
  intros Hf. induction l as [|x l IH]; [reflexivity |].
  simpl. destruct (p x) eqn:Hp; simpl.
  - now rewrite (Hf x Hp).
  - now rewrite IH.
Qed.

(** *** [upsert_role] *)

Lemma upsert_role_found (table : list Role.t) (r : string) (perms : Z)
    (dflt : bool) :
  exists role,
    first (filter (named r) (upsert_role table (r, (perms, dflt))))
    = Some role
    /\ Role.name role = r
    /\ Role.permissions role = perms
    /\ Role.default role = dflt.
Proof.
  unfold upsert_role.
  destruct (first (filter (named r) table)) as [found|] eqn:E.
  - pose proof (first_filter_Some _ _ _ E) as [_ Hn].
    rewrite update_first_first, E by (intros; exact Hn).
    eexists; split; [reflexivity |]. apply named_spec in Hn. now cbn.
  - unfold insert_role. rewrite filter_app.
    assert (Hnil : filter (named r) table = []).
    { destruct (filter (named r) table); [reflexivity | discriminate]. }
    rewrite Hnil. cbn [app filter]. unfold named at 1.
    cbn [Role.name]. rewrite String.eqb_refl.
    eexists; split; [reflexivity |]. now cbn.
Qed.

Lemma upsert_role_other (table : list Role.t) (r r' : string) (perms : Z)
    (dflt : bool) :
  r' <> r ->
  filter (named r') (upsert_role table (r, (perms, dflt)))
  = filter (named r') table.
Proof.
  intros Hne. unfold upsert_role.
  assert (Hoff : forall x, Role.name x = r -> named r' x = false).
  { intros x Hx. unfold named. rewrite Hx. apply String.eqb_neq. congruence. }
  destruct (first (filter (named r) table)) as [found|] eqn:E.
  - pose proof (first_filter_Some _ _ _ E) as [_ Hn]. apply named_spec in Hn.
    apply update_first_filter_other. intros x Hx. apply named_spec in Hx.
    split; apply Hoff; [exact Hx | exact Hn].
  - unfold insert_role. rewrite filter_app. cbn [filter].
    rewrite Hoff by reflexivity. apply app_nil_r.
Qed.

Lemma upsert_role_fixed (table : list Role.t) (r : string) (perms : Z)
    (dflt : bool) (role : Role.t) :
  first (filter (named r) table) = Some role ->
  Role.permissions role = perms ->
  Role.default role = dflt ->
  upsert_role table (r, (perms, dflt)) = table.
Proof.
  intros E Hp Hd. unfold upsert_role. rewrite E.
  apply update_first_fixed with (x := role); [exact E |].
  destruct role; cbn in *; now subst.
Qed.

Lemma upsert_role_names_NoDup (table : list Role.t)
    (entry : string * (Z * bool)) :
  NoDup (map Role.name table) ->
  NoDup (map Role.name (upsert_role table entry)).
Proof.
  destruct entry as [r [perms dflt]]. intros Hnd. unfold upsert_role.
  destruct (first (filter (named r) table)) as [found|] eqn:E.
  - rewrite update_first_map; [exact Hnd |].
    intros x Hx. apply named_spec in Hx.
    pose proof (first_filter_Some _ _ _ E) as [_ Hn].
    apply named_spec in Hn. cbn. congruence.
  - unfold insert_role. rewrite map_app. cbn.
    apply NoDup_app; [exact Hnd | repeat constructor; intros [] |].
    intros a Hin [<- | []]. apply in_map_iff in Hin.
    destruct Hin as [x [Hx Hin]].
    pose proof (first_filter_None _ _ E x Hin) as Hf.
    apply named_spec in Hx. congruence.
Qed.
Lemma named_unique (l : list Role.t) (r : string) (x y : Role.t) :
  NoDup (map Role.name l) ->
  first (filter (named r) l) = Some x ->
  In y l -> Role.name y = r -> y = x.
Proof.
  induction l as [|a l IH]; intros Hnd E Hin Hy; [destruct Hin |].
  cbn [map] in Hnd. apply NoDup_cons_iff in Hnd. destruct Hnd as [Ha Hnd].
  cbn [filter] in E. destruct (named r a) eqn:Hn.
  - injection E as <-. destruct Hin as [-> | Hin]; [reflexivity |].
    apply named_spec in Hn. exfalso. apply Ha. apply in_map_iff.
    exists y. split; [congruence | exact Hin].
  - destruct Hin as [-> | Hin].
    + apply named_spec in Hy. congruence.
    + now apply IH.
Qed.

Lemma roles_table_values :
  roles_table
  = [("User", (0x07, true)); ("Moderator", (0x0f, false));
     ("Administrator", (0xff, false))].
Proof. reflexivity. Qed.

(** After a run each of the three names selects a row with the values
    of [roles_table]. *)
Lemma update_roles_lookup (s : RoleStore) (r : string) (perms : Z)
    (dflt : bool) :
  In (r, (perms, dflt)) roles_table ->
  exists role,
    first (filter (named r) (roles (update_roles s))) = Some role
    /\ Role.name role = r
    /\ Role.permissions role = perms
    /\ Role.default role = dflt.
Proof.
  rewrite update_roles_table, roles_table_values. cbn [fold_left].
  intros [E | [E | [E | []]]]; injection E as <- <- <-.
  - rewrite !upsert_role_other by discriminate. apply upsert_role_found.
  - rewrite upsert_role_other by discriminate. apply upsert_role_found.
  - apply upsert_role_found.
Qed.

Lemma update_roles_no_pending (s : RoleStore) :
  new_roles (update_roles s) = [].
Proof. reflexivity. Qed.

(** The id each of the three turns reads is that of the table before the
    run: a turn changes no row of another name. *)
Lemma id_when_mirrored_upsert (table : list Role.t) (r r' : string)
    (perms : Z) (dflt : bool) :
  r' <> r ->
  id_when_mirrored (upsert_role table (r, (perms, dflt))) r'
  = id_when_mirrored table r'.
Proof.
  intros Hne. unfold id_when_mirrored.
  now rewrite upsert_role_other by exact Hne.
Qed.

(** X28. [update_roles] upserts by name the three roles of [roles_table]
    with their bitmasks ([0x07], [0x0f], [0xff]) and default flags, and run
    again leaves the table as it was; on a table whose names are unique
    (the constraint of column [name]) the names stay unique and, of the
    three roles, role "User" alone is marked default.  Each turn sends the
    ledger one put, with the id the role has when the turn reads it: the
    key of the row when the role was in the table before the run, and
    [None] when the run creates it. *)
Theorem update_roles_reconciles (s : RoleStore) :
  let s1 := update_roles s in
  roles_table
  = [("User", (0x07, true)); ("Moderator", (0x0f, false));
     ("Administrator", (0xff, false))]
  /\ (forall r perms dflt,
        In (r, (perms, dflt)) roles_table ->
        exists role,
          first (filter (named r) (roles s1)) = Some role
          /\ Role.permissions role = perms
          /\ Role.default role = dflt)
  /\ new_roles s1 = []
  /\ (let id_of := id_when_mirrored (roles (flush_roles s)) in
      role_ledger s1
      = (role_ledger s
         ++ [Put ("weibo.role." ++ str (id_of "User"))
                 (RoleSnapshot (id_of "User") "User" true 0x07);
             Put ("weibo.role." ++ str (id_of "Moderator"))
                 (RoleSnapshot (id_of "Moderator") "Moderator" false 0x0f);
             Put ("weibo.role." ++ str (id_of "Administrator"))
                 (RoleSnapshot (id_of "Administrator") "Administrator"
                               false 0xff)])%list)
  /\ roles (update_roles s1) = roles s1
  /\ (NoDup (map Role.name (roles (flush_roles s))) ->
      NoDup (map Role.name (roles s1))
      /\ forall role,
           In role (roles s1) ->
           In (Role.name role) (map fst roles_table) ->
           (Role.default role = true <-> Role.name role = "User")).
Proof.
  intros s1. subst s1.
  split; [reflexivity |]. split; [| split; [reflexivity |]].
  { intros r perms dflt Hin.
    destruct (update_roles_lookup s r perms dflt Hin) as [role [E [_ Hv]]].
    now exists role. }
  split; [| split].
  - unfold update_roles. rewrite roles_table_values. cbn [fold_left].
    cbn [flush_roles role_ledger].
    rewrite !update_role_ledger_exact, !update_role_table.
    rewrite !id_when_mirrored_upsert by discriminate.
    cbv zeta. rewrite <- !app_assoc. reflexivity.
  - rewrite (update_roles_table (update_roles s)).
    rewrite flush_roles_no_pending by apply update_roles_no_pending.
    rewrite roles_table_values. cbn [fold_left].
    destruct (update_roles_lookup s "User" 7 true) as [u [Eu [_ [Pu Du]]]];
      [cbn; auto |].
    destruct (update_roles_lookup s "Moderator" 15 false)
      as [m [Em [_ [Pm Dm]]]]; [cbn; auto |].
    destruct (update_roles_lookup s "Administrator" 255 false)
      as [a [Ea [_ [Pa Da]]]]; [cbn; auto |].
    rewrite (upsert_role_fixed _ _ _ _ u Eu Pu Du).
    rewrite (upsert_role_fixed _ _ _ _ m Em Pm Dm).
    apply (upsert_role_fixed _ _ _ _ a Ea Pa Da).
  - intros Hnd.
    assert (Hnd1 : NoDup (map Role.name (roles (update_roles s)))).
    { rewrite update_roles_table. unfold roles_table. cbn [fold_left].
      now repeat apply upsert_role_names_NoDup. }
    split; [exact Hnd1 |].
    intros role Hin Hname. cbn [map fst roles_table] in Hname.
    assert (Hrow : forall r perms dflt,
               In (r, (perms, dflt)) roles_table ->
               Role.name role = r -> Role.default role = dflt).
    { intros r perms dflt Ht Hr.
      destruct (update_roles_lookup s r perms dflt Ht) as [x [E [_ [_ D]]]].
      now rewrite (named_unique _ _ x role Hnd1 E Hin Hr). }
    destruct Hname as [Hn | [Hn | [Hn | []]]]; symmetry in Hn.
    + rewrite (Hrow "User" 7 true); [tauto | cbn; auto | exact Hn].
    + rewrite (Hrow "Moderator" 15 false); [| cbn; auto | exact Hn].
      rewrite Hn. split; discriminate.
    + rewrite (Hrow "Administrator" 255 false); [| cbn; auto | exact Hn].
      rewrite Hn. split; discriminate.
Qed.
End UpdateRoles.

Lemma update_roles_reconciles_witness :
  NoDup (map Role.name
             (roles (@flush_roles Sample.database Sample.stale_roles)))
  /\ NoDup (map Role.name
                (roles (@update_roles Sample.database Sample.stale_roles)))
  /\ roles (@update_roles Sample.database
              (@update_roles Sample.database Sample.stale_roles))
     = [Role.mk (Some 5) "Moderator" false 0x0f;
        Role.mk (Some 6) "User" true 0x07;
        Role.mk (Some 7) "Administrator" false 0xff].
Proof.
  assert (Hnd : NoDup (map Role.name
                 (roles (@flush_roles Sample.database Sample.stale_roles)))).
  { vm_compute. constructor; [intros [] | constructor]. }
  destruct (@update_roles_reconciles Sample.database Sample.stale_roles)
    as (_ & _ & _ & _ & Hagain & Hunique).
  split; [exact Hnd | split].
  - exact (proj1 (Hunique Hnd)).
  - rewrite Hagain. reflexivity.
Defined.

(** C8, at the failing input. On an empty table, whatever keys the
    database gives, [update_roles] inserts the three roles, each with a
    key, but every call to the ledger is made before the flush that gives
    the role its key: the three puts all go to [weibo.role.None], each with
    [id] [None], and none to the key of the role it is about. *)
Theorem update_roles_mirrors_new_roles_without_id :
  forall database : Database,
    role_ledger (@update_roles database Sample.no_roles)
    = [Put "weibo.role.None" (RoleSnapshot None "User" true 0x07);
       Put "weibo.role.None" (RoleSnapshot None "Moderator" false 0x0f);
       Put "weibo.role.None" (RoleSnapshot None "Administrator" false 0xff)]
    /\ map Role.name (roles (@update_roles database Sample.no_roles))
       = ["User"; "Moderator"; "Administrator"]
    /\ Forall (fun role =>
                 exists i, Role.id role = Some i
                           /\ "weibo.role." ++ str (Role.id role)
                              <> "weibo.role.None")
              (roles (@update_roles database Sample.no_roles)).
Proof.
  intros database. split; [reflexivity | split; [reflexivity |]].
  assert (Hkey : forall i, "weibo.role." ++ str (Some i) <> "weibo.role.None").
  { intros i E. cbn [str append] in E. repeat (injection E as E).
    assert (Hs : NilZero.int_of_string (str_int i) = Some (Z.to_int i)).
    { unfold str_int. apply NilZero.isi;
        destruct i; cbn; try discriminate;
        intros [= E']; exact (Unsigned.to_uint_nonnil _ E'). }
    rewrite E in Hs. discriminate Hs. }
  cbn. repeat constructor; eexists; (split; [reflexivity | apply Hkey]).
Qed.

(** ** Account confirmation *)

Lemma py_eq_spec (a b : option Z) : py_eq a b = true <-> a = b.
Proof.
  destruct a as [x|], b as [y|]; simpl; try (split; congruence).
  rewrite Z.eqb_eq. split; congruence.
Qed.

Lemma option_Z_eq_dec (a b : option Z) : {a = b} + {a <> b}.
Proof. decide equality. apply Z.eq_dec. Qed.

Section Confirm.
Context `{Signer}.

Lemma loads_Return (key : string) (now : Z) (token : Token) (data : dict) :
  loads key now token = Return data <->
  signature token = jws_signature key (iat token) (exp token) (payload token)
  /\ 0 <= exp token /\ now <= exp token /\ data = payload token.
Proof.
  unfold loads.
  destruct (Z.eqb_spec (signature token)
              (jws_signature key (iat token) (exp token) (payload token)));
    cbn [negb]; [| split; [discriminate | tauto]].
  destruct (Z.ltb_spec (exp token) 0); [split; [discriminate | lia] |].
  destruct (Z.ltb_spec (exp token) now); [split; [discriminate | lia] |].
  split.
  - intros E. injection E as <-. auto.
  - intros (_ & _ & _ & ->). reflexivity.
Qed.

Lemma confirm_cases (cfg : Config) (now : Z) (self : User.t)
    (token : Token) (s : UserStore) :
  match loads (SECRET_KEY cfg) now token with
  | Raise _ => confirm cfg now self token s = (false, self, s)
  | Return data =>
      (dict_get "confirm" data <> User.id self ->
       confirm cfg now self token s = (false, self, s))
      /\ (dict_get "confirm" data = User.id self ->
          confirm cfg now self token s
          = (true, confirmed_user self, confirmed_store self s))
  end.
Proof.
  unfold confirm.
  destruct (loads (SECRET_KEY cfg) now token) as [data | e]; [| reflexivity].
  destruct (py_eq (dict_get "confirm" data) (User.id self)) eqn:E;
    cbn [negb].
  - apply py_eq_spec in E. split; [contradiction | reflexivity].
  - split; [reflexivity |]. intros E'. apply py_eq_spec in E'. congruence.
Qed.

Lemma confirm_valid_token (cfg : Config) (now : Z) (self : User.t)
    (token : Token) (s : UserStore) :
  signature token
  = jws_signature (SECRET_KEY cfg) (iat token) (exp token) (payload token) ->
  0 <= exp token -> now <= exp token ->
  dict_get "confirm" (payload token) = User.id self ->
  confirm cfg now self token s
  = (true, confirmed_user self, confirmed_store self s).
Proof.
  intros Hs H0 He Hi. pose proof (confirm_cases cfg now self token s) as Hc.
  assert (Hret : loads (SECRET_KEY cfg) now token = Return (payload token))
    by (apply loads_Return; auto).
  rewrite Hret in Hc. now apply Hc.
Qed.

(** C7. [confirm] returns [False] and leaves the identity, the session and
    the ledger as they were when the signature of the token is invalid, the
    token is expired or the id it carries differs from the identity's; on a
    token valid for the identity it sets [confirmed], mirrors the updated
    snapshot under the identity's key and returns [True]; no call ends in
    between those two outcomes. *)
Theorem confirm_fails_closed_or_confirms (cfg : Config) (now : Z)
    (self : User.t) (token : Token) (s : UserStore) :
  let valid_signature :=
    signature token
    = jws_signature (SECRET_KEY cfg) (iat token) (exp token) (payload token) in
  let expired := exp token < now in
  let same_id := dict_get "confirm" (payload token) = User.id self in
  (~ valid_signature \/ expired \/ ~ same_id ->
   confirm cfg now self token s = (false, self, s))
  /\ (0 <= now -> valid_signature -> ~ expired -> same_id ->
      confirm cfg now self token s
      = (true, confirmed_user self, confirmed_store self s)
      /\ User.confirmed (confirmed_user self) = true)
  /\ (confirm cfg now self token s = (false, self, s)
      \/ confirm cfg now self token s
         = (true, confirmed_user self, confirmed_store self s)).
Proof.
  intros valid_signature expired same_id.
  subst valid_signature expired same_id.
  pose proof (confirm_cases cfg now self token s) as Hc.
  split; [| split].
  - destruct (loads (SECRET_KEY cfg) now token) as [data | e] eqn:El;
      [| intros _; exact Hc].
    apply loads_Return in El. destruct El as (Hsig & Hexp & Hnow & ->).
    intros [Hs | [He | Hi]]; [contradiction | lia | now apply Hc].
  - intros Hnow Hs He Hi. split; [| reflexivity].
    apply confirm_valid_token; auto; lia.
  - destruct (loads (SECRET_KEY cfg) now token) as [data | e];
      [| left; exact Hc].
    destruct (option_Z_eq_dec (dict_get "confirm" data) (User.id self))
      as [E | E]; [right | left]; now apply Hc.
Qed.

(** A token from [generate_confirmation_token] confirms its identity until
    it expires. *)
Lemma confirm_generated_token (cfg : Config) (issued now expiration : Z)
    (self : User.t) (s : UserStore) :
  0 <= issued <= now -> now <= issued + expiration ->
  confirm cfg now self
          (generate_confirmation_token cfg issued self expiration) s
  = (true, confirmed_user self, confirmed_store self s).
Proof.
  intros Hi He. apply confirm_valid_token.
  - reflexivity.
  - cbn [generate_confirmation_token dumps exp]. lia.
  - cbn [generate_confirmation_token dumps exp]. lia.
  - reflexivity.
Qed.
End Confirm.

Lemma confirm_fails_closed_or_confirms_witness :
  @confirm Sample.signer Sample.cfg 5000 Sample.alice Sample.alice_token
           Sample.no_users
  = (false, Sample.alice, Sample.no_users)
  /\ @confirm Sample.signer Sample.cfg 200 Sample.bob Sample.alice_token
              Sample.no_users
     = (false, Sample.bob, Sample.no_users)
  /\ @confirm Sample.signer Sample.cfg 200 Sample.alice Sample.alice_token
              Sample.no_users
     = (true, confirmed_user Sample.alice,
        {| session_users := [confirmed_user Sample.alice];
           user_ledger :=
             [Put "weibo.user.1" (UserSnapshot (confirmed_user Sample.alice))]
        |}).
Proof.
  split; [| split].
  - apply (proj1 (@confirm_fails_closed_or_confirms Sample.signer Sample.cfg
                    5000 Sample.alice Sample.alice_token Sample.no_users)).
    right; left. vm_compute. reflexivity.
  - apply (proj1 (@confirm_fails_closed_or_confirms Sample.signer Sample.cfg
                    200 Sample.bob Sample.alice_token Sample.no_users)).
    right; right. vm_compute. discriminate.
  - apply (proj1 (proj2 (@confirm_fails_closed_or_confirms Sample.signer
                           Sample.cfg 200 Sample.alice Sample.alice_token
                           Sample.no_users))).
    + lia.
    + reflexivity.
    + vm_compute. discriminate.
    + reflexivity.
Defined.

(** ** The follow graph *)

Lemma filter_comm {A : Type} (p q : A -> bool) (l : list A) :
  filter p (filter q l) = filter q (filter p l).
Proof.
  induction l as [|x l IH]; [reflexivity |].
  simpl. destruct (p x) eqn:Hp, (q x) eqn:Hq; simpl;
    rewrite ?Hp, ?Hq, IH; reflexivity.
Qed.

Lemma first_filter_true_iff {A : Type} (p : A -> bool) (l : list A) :
  (exists x, first (filter p l) = Some x) <-> exists x, In x l /\ p x = true.
Proof.
  split.
  - intros [x E]. exists x. now apply first_filter_Some.
  - apply first_filter_exists.
Qed.

Lemma is_following_spec (a b : User.t) (s : FollowStore) :
  fst (is_following a b s) = true <-> has_edge a b s.
Proof.
  unfold is_following, has_edge, followed.
  destruct (first _) as [f|] eqn:E; cbn [fst].
  - split; [intros _ | reflexivity].
    apply first_filter_Some in E. destruct E as [Hin Hb].
    apply filter_In in Hin. exists f. tauto.
  - split; [discriminate |]. intros [f (Hin & Ha & Hb)].
    pose proof (first_filter_None _ _ E f) as Hn.
    rewrite Hn in Hb; [discriminate |]. apply filter_In. auto.
Qed.

Lemma is_following_store (a b : User.t) (s : FollowStore) :
  snd (is_following a b s) = flush_follows s.
Proof. unfold is_following. now destruct (first _). Qed.

(** C10. [a.is_following(b)] and [b.is_followed_by(a)] give the same
    answer in every state of the graph: each is true exactly when the table
    holds the directed edge from [a] to [b]. *)
Theorem is_following_iff_is_followed_by (a b : User.t) (s : FollowStore) :
  (fst (is_following a b s) = true <-> fst (is_followed_by b a s) = true)
  /\ (fst (is_following a b s) = true <-> has_edge a b s)
  /\ (fst (is_followed_by b a s) = true <-> has_edge a b s).
Proof.
  assert (E : is_followed_by b a s = is_following a b s).
  { unfold is_followed_by, is_following, followers, followed.
    now rewrite filter_comm. }
  rewrite E. split; [reflexivity | split]; apply is_following_spec.
Qed.

Lemma is_following_iff_is_followed_by_witness :
  fst (is_following Sample.alice Sample.bob Sample.feed) = true
  /\ fst (is_followed_by Sample.bob Sample.alice Sample.feed) = true
  /\ fst (is_followed_by Sample.alice Sample.bob Sample.feed) = false.
Proof.
  split; [reflexivity | split; [| reflexivity]].
  apply (proj1 (proj1 (is_following_iff_is_followed_by
                         Sample.alice Sample.bob Sample.feed))).
  reflexivity.
Defined.

(** ** The feed *)

(** The claim that the sequence comes newest first fails: Bob's posts come
    back in the order of the table, the older one first. *)
Lemma followed_posts_not_newest_first :
  fst (followed_posts Sample.alice Sample.feed)
  = [Post.mk 1 "first" 10 (Some 2); Post.mk 3 "second" 20 (Some 2)]
  /\ newest_first (fst (followed_posts Sample.alice Sample.feed)) = false.
Proof. split; reflexivity. Qed.

(** C2, amended. The sequence [followed_posts] yields holds exactly the
    posts whose author is the target of a follow edge leaving the user; the
    query orders nothing. *)
Theorem followed_posts_are_posts_of_followed (self : User.t)
    (s : FollowStore) (p : Post.t) :
  In p (fst (followed_posts self s))
  <-> In p (posts (flush_follows s))
      /\ exists f,
           In f (follows (flush_follows s))
           /\ sql_eq (Follow.follower_id f) (User.id self) = true
           /\ sql_eq (Follow.followed_id f) (Post.author_id p) = true.
Proof.
  unfold followed_posts. cbn [fst]. rewrite in_flat_map. split.
  - intros [q [Hq Hin]]. apply in_flat_map in Hin.
    destruct Hin as [f [Hf Hin]].
    destruct (sql_eq (Follow.followed_id f) (Post.author_id q)
              && sql_eq (Follow.follower_id f) (User.id self)) eqn:E;
      [| destruct Hin].
    destruct Hin as [<- | []]. apply andb_prop in E.
    split; [exact Hq |]. exists f. tauto.
  - intros [Hp [f (Hf & Ha & Hb)]]. exists p. split; [exact Hp |].
    apply in_flat_map. exists f. split; [exact Hf |].
    rewrite Ha, Hb. now left.
Qed.

Lemma followed_posts_are_posts_of_followed_witness :
  In (Post.mk 3 "second" 20 (Some 2))
     (fst (followed_posts Sample.alice Sample.feed))
  /\ ~ In (Post.mk 2 "other" 15 (Some 3))
          (fst (followed_posts Sample.alice Sample.feed)).
Proof.
  split.
  - apply (proj2 (followed_posts_are_posts_of_followed Sample.alice
                    Sample.feed (Post.mk 3 "second" 20 (Some 2)))).
    split.
    + right; right; left; reflexivity.
    + exists (Follow.mk (Some 1) (Some 2) (Some 5)).
      split; [left; reflexivity | split; reflexivity].
  - intros Hin.
    apply (proj1 (followed_posts_are_posts_of_followed Sample.alice
                    Sample.feed (Post.mk 2 "other" 15 (Some 3)))) in Hin.
    destruct Hin as [_ [f [[<- | []] [_ Hf]]]]. discriminate Hf.
Defined.

(** When the keys of the follow rows are unique, as the primary key makes
    them, the list the definition builds is the posts table filtered. *)
Lemma followed_posts_filter (self : User.t) (s : FollowStore) :
  NoDup (map follow_key (follows (flush_follows s))) ->
  fst (followed_posts self s)
  = filter (by_followed self (follows (flush_follows s)))
           (posts (flush_follows s)).
Proof.
  intros Hnd. unfold followed_posts. cbn [fst].
  set (rows := follows (flush_follows s)) in *.
  induction (posts (flush_follows s)) as [|p l IH]; [reflexivity |].
  cbn [flat_map filter]. rewrite IH.
  assert (Hone :
    flat_map (fun f => if sql_eq (Follow.followed_id f) (Post.author_id p)
                          && sql_eq (Follow.follower_id f) (User.id self)
                       then [p] else []) rows
    = if by_followed self rows p then [p] else []).
  { unfold by_followed. clearbody rows. clear IH.
    induction rows as [|f rows IHr]; [reflexivity |].
    cbn [map] in Hnd. apply NoDup_cons_iff in Hnd. destruct Hnd as [Hf Hnd].
    cbn [flat_map existsb]. rewrite (IHr Hnd).
    destruct (sql_eq (Follow.followed_id f) (Post.author_id p)
              && sql_eq (Follow.follower_id f) (User.id self)) eqn:E;
      [| reflexivity].
    cbn [orb]. destruct (existsb _ rows) eqn:Ex; [| reflexivity].
    exfalso. apply Hf. apply existsb_exists in Ex.
    destruct Ex as [g [Hg Eg]]. apply in_map_iff. exists g.
    split; [| exact Hg]. unfold follow_key.
    apply andb_prop in E. apply andb_prop in Eg.
    destruct E as [E1 E2], Eg as [G1 G2].
    destruct (Follow.followed_id f), (Follow.followed_id g),
      (Post.author_id p), (Follow.follower_id f), (Follow.follower_id g),
      (User.id self); try discriminate.
    cbn in *. apply Z.eqb_eq in E1, E2, G1, G2. congruence. }
  rewrite Hone. now destruct (by_followed self rows p).
Qed.

(** ** Follow and unfollow *)

Lemma filter_all {A : Type} (p : A -> bool) (l : list A) :
  (forall x, In x l -> p x = true) -> filter p l = l.
Proof.
  induction l as [|x l IH]; intros Hp; [reflexivity |].
  cbn [filter]. rewrite (Hp x (or_introl eq_refl)), IH; [reflexivity |].
  intros y Hy. apply Hp. now right.
Qed.

Lemma flush_follows_clean (s : FollowStore) :
  new_follows s = [] -> deleted_follows s = [] -> flush_follows s = s.
Proof.
  destruct s as [rows new del ps now led]. cbn. intros -> ->.
  unfold flush_follows. cbn.
  rewrite app_nil_r, filter_all; reflexivity.
Qed.

Lemma flush_follows_idempotent (s : FollowStore) :
  flush_follows (flush_follows s) = flush_follows s.
Proof. now apply flush_follows_clean. Qed.

Lemma has_edge_flush (a b : User.t) (s : FollowStore) :
  has_edge a b (flush_follows s) <-> has_edge a b s.
Proof. unfold has_edge. now rewrite flush_follows_idempotent. Qed.

Lemma is_following_false (a b : User.t) (s : FollowStore) :
  fst (is_following a b s) = false <-> ~ has_edge a b s.
Proof.
  rewrite <- is_following_spec. destruct (fst (is_following a b s));
    split; congruence.
Qed.

Lemma sql_eq_Some (x y : option Z) :
  sql_eq x y = true <-> exists v, x = Some v /\ y = Some v.
Proof.
  destruct x as [x|], y as [y|]; cbn; split;
    try discriminate; try (intros [v [? ?]]; discriminate).
  - intros E. apply Z.eqb_eq in E. subst. now exists y.
  - intros [v [[= ->] [= ->]]]. apply Z.eqb_refl.
Qed.

(** Following someone already followed only flushes the session. *)
Lemma set_follow_existing (a b : User.t) (s : FollowStore) :
  has_edge a b s -> set_follow a b s = flush_follows s.
Proof.
  intros He. apply is_following_spec in He. unfold set_follow.
  pose proof (is_following_store a b s) as Hs.
  destruct (is_following a b s) as [following s']. cbn in He, Hs.
  now subst.
Qed.

(** Following someone not yet followed leaves one pending edge and one
    call to the ledger, whose key is built from the still unset columns. *)
Lemma set_follow_absent (a b : User.t) (s : FollowStore) :
  ~ has_edge a b s ->
  set_follow a b s
  = {| follows := follows (flush_follows s);
       new_follows := [(a, b)];
       deleted_follows := [];
       posts := posts s;
       utcnow := utcnow s;
       follow_ledger :=
         (follow_ledger s
          ++ [Put "weibo.follow.None/None" (FollowSnapshot None None None)])%list
    |}.
Proof.
  intros He. apply is_following_false in He. unfold set_follow.
  pose proof (is_following_store a b s) as Hs.
  destruct (is_following a b s) as [following s']. cbn in He, Hs.
  subst. reflexivity.
Qed.

(** The flush after such a call inserts the edge at the end of the table. *)
Lemma set_follow_absent_flushed (a b : User.t) (s : FollowStore) :
  ~ has_edge a b s ->
  follows (flush_follows (set_follow a b s))
  = (follows (flush_follows s)
     ++ [Follow.mk (User.id a) (User.id b) (Some (utcnow s))])%list.
Proof.
  intros He. rewrite set_follow_absent by exact He.
  unfold flush_follows at 1.
  cbn [follows new_follows deleted_follows utcnow map fst snd existsb negb].
  apply filter_all. reflexivity.
Qed.

(** Once flushed, the edge [set_follow] added is in the table when both
    users have their keys. *)
Lemma set_follow_has_edge (a b : User.t) (s : FollowStore) (i j : Z) :
  User.id a = Some i -> User.id b = Some j ->
  has_edge a b (set_follow a b s).
Proof.
  intros Ha Hb. destruct (is_following a b s) as [following s'] eqn:E.
  destruct following.
  - assert (He : has_edge a b s) by (apply is_following_spec; now rewrite E).
    rewrite set_follow_existing by exact He. now apply has_edge_flush.
  - assert (He : ~ has_edge a b s)
      by (apply is_following_false; now rewrite E).
    unfold has_edge. rewrite set_follow_absent_flushed by exact He.
    exists (Follow.mk (User.id a) (User.id b) (Some (utcnow s))).
    split; [apply in_or_app; right; now left |].
    cbn [Follow.follower_id Follow.followed_id]. rewrite Ha, Hb.
    cbn. now rewrite !Z.eqb_refl.
Qed.

Lemma edges_nil (a b : User.t) (s : FollowStore) :
  ~ has_edge a b s -> edges a b s = [].
Proof.
  intros He. unfold edges.
  destruct (filter _ _) as [|f l] eqn:E; [reflexivity |].
  exfalso. apply He. exists f.
  assert (Hin : In f (f :: l)) by now left.
  rewrite <- E in Hin. apply filter_In in Hin. destruct Hin as [Hin Hp].
  apply andb_prop in Hp. tauto.
Qed.

(** [set_follow] is idempotent: the second call only flushes, and after
    two calls on a graph without the edge the table holds it once. *)
Lemma set_follow_twice (a b : User.t) (s : FollowStore) (i j : Z) :
  User.id a = Some i -> User.id b = Some j ->
  set_follow a b (set_follow a b s) = flush_follows (set_follow a b s)
  /\ (~ has_edge a b s ->
      edges a b (set_follow a b (set_follow a b s))
      = [Follow.mk (Some i) (Some j) (Some (utcnow s))]).
Proof.
  intros Ha Hb.
  assert (E2 : set_follow a b (set_follow a b s)
               = flush_follows (set_follow a b s))
    by (apply set_follow_existing; now apply set_follow_has_edge with i j).
  split; [exact E2 |]. intros He. rewrite E2.
  unfold edges. rewrite flush_follows_idempotent.
  rewrite set_follow_absent_flushed by exact He. rewrite filter_app.
  fold (edges a b s). rewrite (edges_nil a b s He).
  cbn. rewrite Ha, Hb. cbn. now rewrite !Z.eqb_refl.
Qed.

(** Unfollowing someone not followed only flushes the session. *)
Lemma set_unfollow_absent (a b : User.t) (s : FollowStore) :
  ~ has_edge a b s -> set_unfollow a b s = flush_follows s.
Proof.
  intros He. apply is_following_false in He. unfold set_unfollow.
  unfold is_following in He. now destruct (first _).
Qed.

(** After [set_unfollow] the edge is gone, whatever the state before. *)
Lemma set_unfollow_removes_edge (a b : User.t) (s : FollowStore) :
  ~ has_edge a b (set_unfollow a b s)
  /\ fst (is_following a b (set_unfollow a b s)) = false.
Proof.
  assert (He : ~ has_edge a b (set_unfollow a b s)).
  { unfold set_unfollow.
    destruct (first _) as [f|] eqn:E.
    - apply first_filter_Some in E. destruct E as [Hin Hb].
      apply filter_In in Hin. destruct Hin as [_ Ha].
      intros [g (Hg & Ga & Gb)]. cbn in Hg. rewrite app_nil_r in Hg.
      apply filter_In in Hg. destruct Hg as [_ Hkeep].
      apply negb_true_iff in Hkeep. cbn in Hkeep.
      rewrite orb_false_r in Hkeep. unfold same_key in Hkeep.
      apply sql_eq_Some in Ha, Hb, Ga, Gb.
      destruct Ha as [i [Ha Hi]], Hb as [j [Hb Hj]],
        Ga as [i' [Ga Gi]], Gb as [j' [Gb Gj]].
      rewrite Ha, Hb, Ga, Gb in Hkeep. cbn in Hkeep.
      assert (i' = i) by congruence. assert (j' = j) by congruence. subst.
      rewrite !Z.eqb_refl in Hkeep. discriminate.
    - intros Hedge. apply (proj1 (has_edge_flush a b s)) in Hedge.
      apply is_following_spec in Hedge. unfold is_following in Hedge.
      cbv zeta in Hedge. rewrite E in Hedge. discriminate. }
  split; [exact He | now apply is_following_false].
Qed.

(** C5, at the failing input. Alice (key 1) follows Bob (key 2) on an empty
    graph: the edge [(1, 2)] is inserted, but the mirror is written under
    the key built from the columns of the pending object, which the flush
    has not set yet, and not under [weibo.follow.1/2]. *)
Theorem set_follow_mirrors_under_unset_key :
  follows (flush_follows
             (set_follow Sample.alice Sample.bob Sample.empty_graph))
  = [Follow.mk (Some 1) (Some 2) (Some 1000)]
  /\ follow_ledger (set_follow Sample.alice Sample.bob Sample.empty_graph)
     = [Put "weibo.follow.None/None" (FollowSnapshot None None None)]
  /\ "weibo.follow.None/None"
     <> "weibo.follow." ++ str (Some 1) ++ "/" ++ str (Some 2).
Proof. repeat split. vm_compute. discriminate. Qed.

(** C6, at the failing input. Alice follows then unfollows Bob on an empty
    graph: the edge is gone, but the mirror delete names the key
    [weibo.follow.1/2] while the put at follow time went to
    [weibo.follow.None/None]. *)
Theorem set_unfollow_deletes_under_another_key :
  follow_ledger
    (set_unfollow Sample.alice Sample.bob
       (set_follow Sample.alice Sample.bob Sample.empty_graph))
  = [Put "weibo.follow.None/None" (FollowSnapshot None None None);
     Delete "weibo.follow.1/2"]
  /\ fst (is_following Sample.alice Sample.bob
            (set_unfollow Sample.alice Sample.bob
               (set_follow Sample.alice Sample.bob Sample.empty_graph)))
     = false.
Proof. split; reflexivity. Qed.

(** * Further properties *)

(** ** Permissions as sets of bits *)

Lemma bits_within_lor (p q m : Z) :
  bits_within (Z.lor p q) m <-> bits_within p m /\ bits_within q m.
Proof.
  unfold bits_within. split.
  - intros H. split; intros n Hn; apply H; rewrite Z.lor_spec, Hn;
      [reflexivity | apply orb_true_r].
  - intros [Hp Hq] n Hn. rewrite Z.lor_spec in Hn.
    apply orb_prop in Hn. destruct Hn; auto.
Qed.

Lemma land_eqb_lor (m p q : Z) :
  (Z.land m (Z.lor p q) =? Z.lor p q)
  = (Z.land m p =? p) && (Z.land m q =? q).
Proof.
  apply eq_true_iff_eq. rewrite andb_true_iff, !Z.eqb_eq.
  rewrite !land_eq_bits_within. apply bits_within_lor.
Qed.

(** X1. Permission checks compose: an identity holds the union [p | q] of
    two bitmasks exactly when it holds [p] and holds [q]; this is true of
    users, with or without a role, and of the anonymous user. *)
Theorem can_union_iff_both :
  (forall (u : User.t) (p q : Z), can u (Z.lor p q) = can u p && can u q)
  /\ (forall (a : AnonymousUser) (p q : Z),
        can a (Z.lor p q) = can a p && can a q).
Proof.
  split; [| reflexivity].
  intros u p q. cbn. unfold User_can.
  destruct (User.role u); [apply land_eqb_lor | reflexivity].
Qed.

Lemma User_can_role (u : User.t) (r : Role.t) (p : Z) :
  User.role u = Some r ->
  (can u p = true <-> bits_within p (Role.permissions r)).
Proof.
  intros Hr. cbn. unfold User_can. rewrite Hr, Z.eqb_eq.
  apply land_eq_bits_within.
Qed.

(** X2. Roles are ordered by their bitmasks: when every bit of role [r] is
    set in role [r'], whatever a user holding [r] can do, a user holding
    [r'] can do. *)
Theorem can_monotone_in_role (u u' : User.t) (r r' : Role.t) (p : Z) :
  User.role u = Some r ->
  User.role u' = Some r' ->
  Z.land (Role.permissions r') (Role.permissions r) = Role.permissions r ->
  can u p = true -> can u' p = true.
Proof.
  intros Hr Hr' Hsub Hcan.
  apply (User_can_role u r p Hr) in Hcan.
  apply (User_can_role u' r' p Hr').
  apply land_eq_bits_within in Hsub.
  intros n Hn. apply Hsub, Hcan, Hn.
Qed.

Lemma can_monotone_in_role_witness :
  can (User.mk (Some 2) None None None
               (Some (Role.mk (Some 2) "Moderator" false 0x0f)) true None)
      (Z.lor Permission.FOLLOW Permission.WRITE_ARTICLES)
  = true.
Proof.
  apply (can_monotone_in_role
           (User.mk (Some 1) None None None
                    (Some (Role.mk (Some 1) "User" true 0x07)) true None)
           (User.mk (Some 2) None None None
                    (Some (Role.mk (Some 2) "Moderator" false 0x0f)) true None)
           (Role.mk (Some 1) "User" true 0x07)
           (Role.mk (Some 2) "Moderator" false 0x0f)
           (Z.lor Permission.FOLLOW Permission.WRITE_ARTICLES));
    reflexivity.
Defined.

Lemma bits_within_ADMINISTER (m : Z) :
  bits_within Permission.ADMINISTER m <-> Z.testbit m 7 = true.
Proof.
  unfold bits_within, Permission.ADMINISTER. split.
  - intros H. apply H. reflexivity.
  - intros H7 n Hn. change 128 with (2 ^ 7) in Hn.
    destruct (Z.ltb_spec n 0) as [Hneg | Hpos].
    + rewrite Z.testbit_neg_r in Hn by exact Hneg. discriminate.
    + rewrite Z.pow2_bits_eqb in Hn by lia.
      apply Z.eqb_eq in Hn. now subst.
Qed.

(** X3. [is_administrator] is the test of one bit: a user is an
    administrator exactly when it has a role whose bitmask has bit 7
    ([0x80]) set, whatever the other bits; the anonymous user never is. *)
Theorem is_administrator_iff_bit_7 :
  (forall u : User.t,
      is_administrator u = true
      <-> exists r, User.role u = Some r
                    /\ Z.testbit (Role.permissions r) 7 = true)
  /\ (forall a : AnonymousUser, is_administrator a = false).
Proof.
  split; [| reflexivity].
  intros u. cbn. unfold User_can.
  destruct (User.role u) as [r|].
  - rewrite Z.eqb_eq, land_eq_bits_within, bits_within_ADMINISTER.
    split.
    + intros H. now exists r.
    + intros [r' [[= <-] H]]. exact H.
  - split; [discriminate | intros [r [[=] _]]].
Qed.

Lemma land_0xff_byte (p : Z) : Z.land 0xff p = p <-> 0 <= p <= 255.
Proof.
  rewrite Z.land_comm. change 255 with (Z.ones 8) at 1.
  rewrite Z.land_ones by lia. change (2 ^ 8) with 256.
  split.
  - intros E. pose proof (Z.mod_pos_bound p 256). lia.
  - intros H. apply Z.mod_small. lia.
Qed.

(** X4. A role with bitmask [0xff] grants exactly the requests that fit in
    eight bits: [can p] is true if and only if [0 <= p <= 255]. *)
Theorem can_with_0xff_iff_byte (u : User.t) (r : Role.t) (p : Z) :
  User.role u = Some r ->
  Role.permissions r = 0xff ->
  (can u p = true <-> 0 <= p <= 255).
Proof.
  intros Hr Hp. cbn. unfold User_can. rewrite Hr, Hp, Z.eqb_eq.
  apply land_0xff_byte.
Qed.

Lemma can_with_0xff_iff_byte_witness :
  (can (User.mk (Some 3) None None None
                (Some (Role.mk (Some 3) "Administrator" false 0xff))
                true None) 0x100 = true
   <-> 0 <= 0x100 <= 255).
Proof.
  exact (can_with_0xff_iff_byte
           (User.mk (Some 3) None None None
                    (Some (Role.mk (Some 3) "Administrator" false 0xff))
                    true None)
           (Role.mk (Some 3) "Administrator" false 0xff) 0x100
           eq_refl eq_refl).
Defined.

(** ** Roles after reconciliation *)

Section RolesAfterUpdate.
Context `{Database}.

Lemma update_first_In_inv {A : Type} (p : A -> bool) (f : A -> A)
    (l : list A) (x : A) :
  In x (update_first p f l) ->
  In x l \/ exists y, In y l /\ p y = true /\ x = f y.
Proof.
  induction l as [|a l IH]; [intros [] |].
  cbn [update_first]. destruct (p a) eqn:Hp.
  - intros [<- | Hin].
    + right. exists a. repeat split; [now left | exact Hp].
    + left. now right.
  - intros [<- | Hin]; [left; now left |].
    destruct (IH Hin) as [Hl | [y (Hy & Hpy & ->)]].
    + left. now right.
    + right. exists y. repeat split; [now right | exact Hpy].
Qed.

Lemma update_first_In_keep {A : Type} (p : A -> bool) (f : A -> A)
    (l : list A) (x : A) :
  In x l -> p x = false -> In x (update_first p f l).
Proof.
  induction l as [|a l IH]; [intros [] |].
  intros [-> | Hin] Hp; cbn [update_first].
  - rewrite Hp. now left.
  - destruct (p a); right; auto.
Qed.

Lemma update_first_map_found {A B : Type} (g : A -> B) (p : A -> bool)
    (v : A) (l : list A) (found : A) :
  first (filter p l) = Some found -> g v = g found ->
  map g (update_first p (fun _ => v) l) = map g l.
Proof.
  intros E Hg. induction l as [|a l IH]; [reflexivity |].
  cbn [filter] in E. cbn [update_first]. destruct (p a).
  - injection E as ->. cbn [map]. now rewrite Hg.
  - cbn [map]. now rewrite IH.
Qed.

Lemma named_false (r : string) (x : Role.t) :
  Role.name x <> r -> named r x = false.
Proof. intros Hne. apply String.eqb_neq. exact Hne. Qed.

(** A turn of the loop neither adds nor removes a row of another name. *)
Lemma upsert_role_other_rows (table : list Role.t) (r : string) (perms : Z)
    (dflt : bool) (x : Role.t) :
  Role.name x <> r ->
  (In x (upsert_role table (r, (perms, dflt))) <-> In x table).
Proof.
  intros Hne. unfold upsert_role.
  destruct (first (filter (named r) table)) as [found|] eqn:E.
  - split.
    + intros Hin. apply update_first_In_inv in Hin.
      destruct Hin as [Hin | [y (_ & _ & ->)]]; [exact Hin |].
      apply first_filter_Some in E. destruct E as [_ E].
      apply named_spec in E. cbn in Hne. congruence.
    + intros Hin. apply update_first_In_keep; [exact Hin |].
      now apply named_false.
  - unfold insert_role. rewrite in_app_iff. cbn [In]. split.
    + intros [Hin | [<- | []]]; [exact Hin |]. cbn in Hne. congruence.
    + auto.
Qed.

(** A turn of the loop keeps the key and the name of every row, in
    place, and adds at most one row at the end. *)
Lemma upsert_role_keys (table : list Role.t) (entry : string * (Z * bool)) :
  exists added,
    map (fun x => (Role.id x, Role.name x)) (upsert_role table entry)
    = (map (fun x => (Role.id x, Role.name x)) table ++ added)%list
    /\ (List.length added <= 1)%nat.
Proof.
  destruct entry as [r [perms dflt]]. unfold upsert_role.
  destruct (first (filter (named r) table)) as [found|] eqn:E.
  - exists []. rewrite app_nil_r. split; [| cbn; lia].
    now apply update_first_map_found with (found := found).
  - unfold insert_role. rewrite map_app. eexists. split; [reflexivity |].
    cbn. lia.
Qed.

Lemma update_roles_other_rows (s : RoleStore) (x : Role.t) :
  ~ In (Role.name x) (map fst roles_table) ->
  (In x (roles (update_roles s)) <-> In x (roles (flush_roles s))).
Proof.
  intros Hn. rewrite update_roles_table, roles_table_values.
  rewrite roles_table_values in Hn. cbn [map fst In] in Hn.
  cbn [fold_left]. rewrite !upsert_role_other_rows; [reflexivity | | |];
    intros E; apply Hn; rewrite E; auto.
Qed.

(** X5. [update_roles] never deletes, renumbers or renames a role: every
    row of the table keeps its key and its name at its place, at most three
    rows are added after them, and a row whose name is none of the three
    of [roles_table] is in the table afterwards exactly when it was
    before, with all its attributes. *)
Theorem update_roles_keeps_existing_roles (s : RoleStore) :
  (exists added,
      map (fun x => (Role.id x, Role.name x)) (roles (update_roles s))
      = (map (fun x => (Role.id x, Role.name x)) (roles (flush_roles s))
         ++ added)%list
      /\ (List.length added <= 3)%nat)
  /\ (forall x : Role.t,
        ~ In (Role.name x) ["User"; "Moderator"; "Administrator"] ->
        (In x (roles (update_roles s)) <-> In x (roles (flush_roles s)))).
Proof.
  split; [| exact (update_roles_other_rows s)].
  rewrite update_roles_table. unfold roles_table. cbn [fold_left].
  set (t0 := roles (flush_roles s)).
  destruct (upsert_role_keys t0
              ("User",
               (Z.lor (Z.lor Permission.FOLLOW Permission.COMMENT)
                      Permission.WRITE_ARTICLES, true)))
    as [a1 [E1 L1]].
  set (t1 := upsert_role t0 _) in *.
  destruct (upsert_role_keys t1
              ("Moderator",
               (Z.lor (Z.lor (Z.lor Permission.FOLLOW Permission.COMMENT)
                             Permission.WRITE_ARTICLES)
                      Permission.MODERATE_COMMENTS, false)))
    as [a2 [E2 L2]].
  set (t2 := upsert_role t1 _) in *.
  destruct (upsert_role_keys t2 ("Administrator", (255, false)))
    as [a3 [E3 L3]].
  exists (a1 ++ a2 ++ a3)%list. split.
  - rewrite E3, E2, E1, <- !app_assoc. reflexivity.
  - rewrite !length_app. lia.
Qed.

(** The role [User_init] gives after a run of [update_roles]. *)
Lemma User_init_after_update_roles (cfg : Config) (kwargs : User.t)
    (s : RoleStore) :
  User.role kwargs = None ->
  User.role (fst (User_init cfg kwargs (update_roles s)))
  = if py_str_eq (User.email kwargs) (FLASK_ADMIN cfg)
    then first (filter (fun r => Role.permissions r =? 0xff)
                       (roles (update_roles s)))
    else first (filter (fun r => Role.default r) (roles (update_roles s))).
Proof.
  intros Hr. rewrite (User_init_role cfg kwargs _ Hr).
  now rewrite flush_roles_no_pending by apply update_roles_no_pending.
Qed.

(** X6. Once [update_roles] has run, from whatever table, an identity
    created without a role and with the configured admin email is an
    administrator, and is granted every request that fits in eight
    bits. *)
Theorem admin_signup_after_update_roles (cfg : Config) (kwargs : User.t)
    (s : RoleStore) :
  User.role kwargs = None ->
  User.email kwargs = FLASK_ADMIN cfg ->
  let u := fst (User_init cfg kwargs (update_roles s)) in
  is_administrator u = true
  /\ (forall p, can u p = true <-> 0 <= p <= 255).
Proof.
  intros Hr Hmail u. subst u.
  pose proof (User_init_after_update_roles cfg kwargs s Hr) as Hrole.
  apply py_str_eq_spec in Hmail. rewrite Hmail in Hrole.
  destruct (update_roles_lookup s "Administrator" 255 false)
    as [a [Ea [_ [Pa _]]]]; [cbn; auto |].
  apply first_filter_Some in Ea. destruct Ea as [Hin _].
  destruct (first_filter_exists (fun r => Role.permissions r =? 255)
              (roles (update_roles s))) as [r Er].
  { exists a. split; [exact Hin | now apply Z.eqb_eq]. }
  rewrite Er in Hrole. apply first_filter_Some in Er.
  destruct Er as [_ Pr]. apply Z.eqb_eq in Pr.
  assert (Hcan : forall p, can (fst (User_init cfg kwargs (update_roles s))) p
                           = true <-> 0 <= p <= 255).
  { intros p. cbn. unfold User_can. rewrite Hrole, Pr, Z.eqb_eq.
    apply land_0xff_byte. }
  split; [| exact Hcan].
  change (can (fst (User_init cfg kwargs (update_roles s)))
              Permission.ADMINISTER = true).
  apply Hcan. unfold Permission.ADMINISTER. lia.
Qed.

(** X7. Once [update_roles] has run on a table with unique names in which
    no role outside the three of [roles_table] is flagged default, an
    identity created without a role and with another email than the
    admin's holds role "User" with bitmask [0x07]: it can follow, comment
    and write articles, and can neither moderate comments nor
    administer. *)
Theorem ordinary_signup_after_update_roles (cfg : Config) (kwargs : User.t)
    (s : RoleStore) :
  User.role kwargs = None ->
  User.email kwargs <> FLASK_ADMIN cfg ->
  NoDup (map Role.name (roles (flush_roles s))) ->
  (forall x, In x (roles (flush_roles s)) -> Role.default x = true ->
             In (Role.name x) ["User"; "Moderator"; "Administrator"]) ->
  let u := fst (User_init cfg kwargs (update_roles s)) in
  (exists r, User.role u = Some r /\ Role.name r = "User"
             /\ Role.permissions r = 0x07)
  /\ (forall p, can u p = true <-> Z.land 0x07 p = p)
  /\ can u Permission.FOLLOW = true
  /\ can u Permission.COMMENT = true
  /\ can u Permission.WRITE_ARTICLES = true
  /\ can u Permission.MODERATE_COMMENTS = false
  /\ is_administrator u = false.
Proof.
  intros Hr Hmail Hnd Hdef u. subst u.
  pose proof (User_init_after_update_roles cfg kwargs s Hr) as Hrole.
  destruct (py_str_eq (User.email kwargs) (FLASK_ADMIN cfg)) eqn:Em;
    [apply py_str_eq_spec in Em; contradiction |].
  assert (Hnd1 : NoDup (map Role.name (roles (update_roles s)))).
  { rewrite update_roles_table. unfold roles_table. cbn [fold_left].
    now repeat apply upsert_role_names_NoDup. }
  destruct (update_roles_lookup s "User" 7 true)
    as [usr [Eu [Nu [Pu Du]]]]; [cbn; auto |].
  pose proof (first_filter_Some _ _ _ Eu) as [Hin_u _].
  destruct (first_filter_exists (fun r => Role.default r)
              (roles (update_roles s))) as [r Er].
  { exists usr. split; [exact Hin_u | exact Du]. }
  rewrite Er in Hrole. apply first_filter_Some in Er.
  destruct Er as [Hin Dr].
  assert (Hr_usr : r = usr).
  { destruct (in_dec string_dec (Role.name r)
                ["User"; "Moderator"; "Administrator"]) as [Hc | Hc].
    - assert (Hrow : forall n perms dflt,
                 In (n, (perms, dflt)) roles_table ->
                 Role.name r = n -> Role.default r = dflt).
      { intros n perms dflt Ht Hn.
        destruct (update_roles_lookup s n perms dflt Ht)
          as [x [E [_ [_ D]]]].
        now rewrite (named_unique _ _ x r Hnd1 E Hin Hn). }
      destruct Hc as [Hn | [Hn | [Hn | []]]]; symmetry in Hn.
      + exact (named_unique _ _ usr r Hnd1 Eu Hin Hn).
      + rewrite (Hrow "Moderator" 15 false) in Dr;
          [discriminate | cbn; auto | exact Hn].
      + rewrite (Hrow "Administrator" 255 false) in Dr;
          [discriminate | cbn; auto | exact Hn].
    - exfalso. apply Hc. apply Hdef; [| exact Dr].
      now apply update_roles_other_rows. }
  subst r.
  assert (Hcan : forall p, can (fst (User_init cfg kwargs (update_roles s))) p
                           = true <-> Z.land 7 p = p).
  { intros p. cbn. unfold User_can. rewrite Hrole, Pu. apply Z.eqb_eq. }
  assert (Hnot : forall p, Z.land 7 p <> p ->
             can (fst (User_init cfg kwargs (update_roles s))) p = false).
  { intros p Hp. apply not_true_is_false. intros E. now apply Hcan in E. }
  split; [now exists usr |]. split; [exact Hcan |].
  repeat split; try (apply Hcan; reflexivity);
    apply Hnot; discriminate.
Qed.
End RolesAfterUpdate.

Lemma update_roles_keeps_existing_roles_witness :
  In (Role.mk (Some 4) "Guest" false 0x00)
     (roles (@update_roles Sample.database Demo.custom_roles))
  /\ roles (@update_roles Sample.database Demo.custom_roles)
     = [Role.mk (Some 4) "Guest" false 0x00;
        Role.mk (Some 9) "User" true 0x07;
        Role.mk (Some 10) "Moderator" false 0x0f;
        Role.mk (Some 11) "Administrator" false 0xff].
Proof.
  split; [| reflexivity].
  apply (proj2 (@update_roles_keeps_existing_roles Sample.database
                  Demo.custom_roles)).
  - intros [E | [E | [E | []]]]; discriminate E.
  - left. reflexivity.
Defined.

Lemma admin_signup_after_update_roles_witness :
  User.role Sample.admin_signup = None
  /\ User.email Sample.admin_signup = FLASK_ADMIN Sample.cfg
  /\ is_administrator
       (fst (@User_init Sample.database Sample.cfg Sample.admin_signup
               (@update_roles Sample.database Demo.custom_roles)))
     = true.
Proof.
  split; [reflexivity | split; [reflexivity |]].
  exact (proj1 (@admin_signup_after_update_roles Sample.database Sample.cfg
                  Sample.admin_signup Demo.custom_roles eq_refl eq_refl)).
Defined.

Lemma ordinary_signup_after_update_roles_witness :
  User.role Sample.lower_case_signup = None
  /\ NoDup (map Role.name
                (roles (@flush_roles Sample.database Demo.custom_roles)))
  /\ User.role (fst (@User_init Sample.database Sample.cfg
                       Sample.lower_case_signup
                       (@update_roles Sample.database Demo.custom_roles)))
     = Some (Role.mk (Some 9) "User" true 0x07)
  /\ can (fst (@User_init Sample.database Sample.cfg
                 Sample.lower_case_signup
                 (@update_roles Sample.database Demo.custom_roles)))
         Permission.MODERATE_COMMENTS
     = false.
Proof.
  assert (Hnd : NoDup (map Role.name
                 (roles (@flush_roles Sample.database Demo.custom_roles)))).
  { vm_compute. constructor; [intros [E | []]; discriminate E |].
    constructor; [intros [] | constructor]. }
  assert (Hne : User.email Sample.lower_case_signup
                <> FLASK_ADMIN Sample.cfg) by discriminate.
  assert (Hdef : forall x,
             In x (roles (@flush_roles Sample.database Demo.custom_roles)) ->
             Role.default x = true ->
             In (Role.name x) ["User"; "Moderator"; "Administrator"]).
  { intros x [<- | [<- | []]] D; discriminate D. }
  destruct (@ordinary_signup_after_update_roles Sample.database Sample.cfg
              Sample.lower_case_signup Demo.custom_roles eq_refl Hne Hnd Hdef)
    as (_ & _ & _ & _ & _ & Hmod & _).
  split; [reflexivity | split; [exact Hnd | split; [reflexivity |]]].
  exact Hmod.
Defined.

(** ** Follow and unfollow, continued *)

Lemma set_unfollow_present (a b : User.t) (s : FollowStore) (f : Follow.t) :
  first (filter (fun g => sql_eq (Follow.followed_id g) (User.id b))
                (followed a (flush_follows s))) = Some f ->
  set_unfollow a b s
  = {| follows := follows (flush_follows s);
       new_follows := [];
       deleted_follows := [f];
       posts := posts s;
       utcnow := utcnow s;
       follow_ledger :=
         (follow_ledger s
          ++ [Delete ("weibo.follow." ++ str (Follow.follower_id f)
                      ++ "/" ++ str (Follow.followed_id f))])%list |}
  /\ sql_eq (Follow.follower_id f) (User.id a) = true
  /\ sql_eq (Follow.followed_id f) (User.id b) = true.
Proof.
  intros E. unfold set_unfollow. rewrite E. split; [reflexivity |].
  apply first_filter_Some in E. destruct E as [Hin Hb].
  apply filter_In in Hin. tauto.
Qed.

Lemma has_edge_first (a b : User.t) (s : FollowStore) :
  has_edge a b s ->
  exists f,
    first (filter (fun g => sql_eq (Follow.followed_id g) (User.id b))
                  (followed a (flush_follows s))) = Some f.
Proof.
  intros [f (Hin & Ha & Hb)]. apply first_filter_exists. exists f.
  split; [| exact Hb]. apply filter_In. auto.
Qed.

(** X8. Following someone already followed writes nothing: no row is
    pending afterwards, the ledger receives no call, and the rows of the
    table are those a flush alone leaves. *)
Theorem set_follow_when_following_writes_nothing (a b : User.t)
    (s : FollowStore) :
  has_edge a b s ->
  set_follow a b s = flush_follows s
  /\ new_follows (set_follow a b s) = []
  /\ follow_ledger (set_follow a b s) = follow_ledger s.
Proof.
  intros He. rewrite (set_follow_existing a b s He). repeat split.
Qed.

Lemma set_follow_when_following_writes_nothing_witness :
  follow_ledger (set_follow Sample.alice Sample.bob Sample.feed) = []
  /\ follows (set_follow Sample.alice Sample.bob Sample.feed)
     = [Follow.mk (Some 1) (Some 2) (Some 5)].
Proof.
  assert (He : has_edge Sample.alice Sample.bob Sample.feed).
  { exists (Follow.mk (Some 1) (Some 2) (Some 5)).
    split; [left; reflexivity | split; reflexivity]. }
  destruct (set_follow_when_following_writes_nothing
              Sample.alice Sample.bob Sample.feed He) as (E & _ & L).
  split; [exact L | rewrite E; reflexivity].
Defined.

(** X9. [set_follow] is idempotent for users that have their keys: after
    two calls on a graph without the edge the table holds exactly one row
    for it, the ledger has received exactly one put, and the second call
    did nothing but flush. *)
Theorem set_follow_twice_one_row_one_put (a b : User.t) (s : FollowStore)
    (i j : Z) :
  User.id a = Some i -> User.id b = Some j ->
  ~ has_edge a b s ->
  edges a b (set_follow a b (set_follow a b s))
  = [Follow.mk (Some i) (Some j) (Some (utcnow s))]
  /\ follow_ledger (set_follow a b (set_follow a b s))
     = (follow_ledger s
        ++ [Put "weibo.follow.None/None" (FollowSnapshot None None None)])%list
  /\ set_follow a b (set_follow a b s) = flush_follows (set_follow a b s).
Proof.
  intros Ha Hb He.
  destruct (set_follow_twice a b s i j Ha Hb) as [E2 E1].
  split; [now apply E1 | split; [| exact E2]].
  rewrite E2. cbn [flush_follows follow_ledger].
  now rewrite set_follow_absent by exact He.
Qed.

Lemma set_follow_twice_one_row_one_put_witness :
  edges Sample.alice Sample.bob
        (set_follow Sample.alice Sample.bob
           (set_follow Sample.alice Sample.bob Sample.empty_graph))
  = [Follow.mk (Some 1) (Some 2) (Some 1000)].
Proof.
  apply (set_follow_twice_one_row_one_put Sample.alice Sample.bob
           Sample.empty_graph 1 2 eq_refl eq_refl).
  intros [f [[] _]].
Defined.

(** X10. After [set_follow] between users that have their keys the edge
    is there, whatever the state before: [is_following] answers [True],
    and [is_followed_by] does the other way round.  The two users may be
    the same: nothing prevents following oneself. *)
Theorem is_following_after_set_follow (a b : User.t) (s : FollowStore)
    (i j : Z) :
  User.id a = Some i -> User.id b = Some j ->
  fst (is_following a b (set_follow a b s)) = true
  /\ fst (is_followed_by b a (set_follow a b s)) = true.
Proof.
  intros Ha Hb.
  assert (He : has_edge a b (set_follow a b s))
    by now apply set_follow_has_edge with i j.
  assert (E : is_followed_by b a (set_follow a b s)
              = is_following a b (set_follow a b s)).
  { unfold is_followed_by, is_following, followers, followed.
    now rewrite filter_comm. }
  rewrite E. split; now apply is_following_spec.
Qed.

Lemma is_following_after_set_follow_witness :
  fst (is_following Sample.alice Sample.alice
         (set_follow Sample.alice Sample.alice Sample.feed)) = true.
Proof.
  exact (proj1 (is_following_after_set_follow Sample.alice Sample.alice
                  Sample.feed 1 1 eq_refl eq_refl)).
Defined.

(** X11. [set_unfollow] on an edge that is not there only flushes: the
    ledger receives no call.  On an edge that is there, between users that
    have their keys, it marks the row and sends the ledger one delete,
    under the key made of the two user keys.  Either way the edge is
    gone afterwards. *)
Theorem set_unfollow_deletes_or_does_nothing (a b : User.t)
    (s : FollowStore) :
  (~ has_edge a b s ->
   set_unfollow a b s = flush_follows s
   /\ follow_ledger (set_unfollow a b s) = follow_ledger s)
  /\ (forall i j, User.id a = Some i -> User.id b = Some j ->
      has_edge a b s ->
      follow_ledger (set_unfollow a b s)
      = (follow_ledger s
         ++ [Delete ("weibo.follow." ++ str_int i ++ "/" ++ str_int j)])%list)
  /\ fst (is_following a b (set_unfollow a b s)) = false.
Proof.
  split; [| split].
  - intros He. rewrite (set_unfollow_absent a b s He). split; reflexivity.
  - intros i j Ha Hb He. destruct (has_edge_first a b s He) as [f Ef].
    destruct (set_unfollow_present a b s f Ef) as (-> & Fa & Fb).
    cbn [follow_ledger]. rewrite Ha in Fa. rewrite Hb in Fb.
    apply sql_eq_Some in Fa, Fb.
    destruct Fa as [v [-> [= ->]]], Fb as [w [-> [= ->]]]. reflexivity.
  - apply set_unfollow_removes_edge.
Qed.

Lemma set_unfollow_deletes_or_does_nothing_witness :
  follow_ledger (set_unfollow Sample.alice Sample.bob Sample.feed)
  = [Delete "weibo.follow.1/2"]
  /\ follow_ledger (set_unfollow Sample.bob Sample.alice Sample.feed) = [].
Proof.
  split.
  - apply (proj1 (proj2 (set_unfollow_deletes_or_does_nothing
                           Sample.alice Sample.bob Sample.feed))
             1 2 eq_refl eq_refl).
    exists (Follow.mk (Some 1) (Some 2) (Some 5)).
    split; [left; reflexivity | split; reflexivity].
  - apply (proj1 (set_unfollow_deletes_or_does_nothing
                    Sample.bob Sample.alice Sample.feed)).
    intros [f [[<- | []] [E _]]]. discriminate E.
Defined.

Lemma set_unfollow_present_flushed (a b : User.t) (s : FollowStore)
    (f : Follow.t) :
  first (filter (fun g => sql_eq (Follow.followed_id g) (User.id b))
                (followed a (flush_follows s))) = Some f ->
  follows (flush_follows (set_unfollow a b s))
  = filter (fun g => negb (same_key g f)) (follows (flush_follows s)).
Proof.
  intros E. destruct (set_unfollow_present a b s f E) as (-> & _ & _).
  unfold flush_follows at 1.
  cbn [follows new_follows deleted_follows map existsb].
  rewrite app_nil_r. apply filter_ext. intros g. now rewrite orb_false_r.
Qed.

Lemma has_edge_set_follow_other (a b c d : User.t) (s : FollowStore) :
  User.id c <> User.id a \/ User.id d <> User.id b ->
  (has_edge c d (set_follow a b s) <-> has_edge c d s).
Proof.
  intros Hne. destruct (fst (is_following a b s)) eqn:E.
  - apply is_following_spec in E. rewrite (set_follow_existing a b s E).
    apply has_edge_flush.
  - apply is_following_false in E. unfold has_edge.
    rewrite (set_follow_absent_flushed a b s E). split.
    + intros [f (Hin & Hc & Hd)]. apply in_app_or in Hin.
      destruct Hin as [Hin | [<- | []]]; [now exists f |].
      cbn in Hc, Hd. apply sql_eq_Some in Hc, Hd.
      destruct Hc as [v [Hc1 Hc2]], Hd as [w [Hd1 Hd2]].
      exfalso. destruct Hne as [Hne | Hne]; apply Hne; congruence.
    + intros [f (Hin & Hc & Hd)]. exists f.
      split; [apply in_or_app; now left | auto].
Qed.

Lemma has_edge_set_unfollow_other (a b c d : User.t) (s : FollowStore) :
  User.id c <> User.id a \/ User.id d <> User.id b ->
  (has_edge c d (set_unfollow a b s) <-> has_edge c d s).
Proof.
  intros Hne.
  destruct (first (filter (fun g => sql_eq (Follow.followed_id g) (User.id b))
                          (followed a (flush_follows s)))) as [f|] eqn:E.
  - unfold has_edge. rewrite (set_unfollow_present_flushed a b s f E).
    destruct (set_unfollow_present a b s f E) as (_ & Fa & Fb).
    split.
    + intros [g (Hin & Hc & Hd)]. apply filter_In in Hin. exists g. tauto.
    + intros [g (Hin & Hc & Hd)]. exists g.
      split; [| auto]. apply filter_In. split; [exact Hin |].
      apply negb_true_iff. apply not_true_is_false. intros Hk.
      unfold same_key in Hk. apply andb_prop in Hk. destruct Hk as [K1 K2].
      apply sql_eq_Some in Fa, Fb, Hc, Hd, K1, K2.
      destruct Fa as [? [? ?]], Fb as [? [? ?]], Hc as [? [? ?]],
        Hd as [? [? ?]], K1 as [? [? ?]], K2 as [? [? ?]].
      destruct Hne as [Hne | Hne]; apply Hne; congruence.
  - assert (He : ~ has_edge a b s).
    { intros He. destruct (has_edge_first a b s He) as [f Ef]. congruence. }
    rewrite (set_unfollow_absent a b s He). apply has_edge_flush.
Qed.

(** X12. Following and unfollowing touch one edge only: for any pair of
    users other than the pair of the call (another follower, or another
    followed), the edge is there after [set_follow] or [set_unfollow]
    exactly when it was there before.  In particular following never
    creates the reverse edge, and unfollowing never removes it. *)
Theorem follow_and_unfollow_leave_other_edges (a b c d : User.t)
    (s : FollowStore) :
  User.id c <> User.id a \/ User.id d <> User.id b ->
  (has_edge c d (set_follow a b s) <-> has_edge c d s)
  /\ (has_edge c d (set_unfollow a b s) <-> has_edge c d s)
  /\ (fst (is_following c d (set_follow a b s)) = fst (is_following c d s))
  /\ (fst (is_following c d (set_unfollow a b s))
      = fst (is_following c d s)).
Proof.
  intros Hne.
  pose proof (has_edge_set_follow_other a b c d s Hne) as Hf.
  pose proof (has_edge_set_unfollow_other a b c d s Hne) as Hu.
  split; [exact Hf | split; [exact Hu | split]];
    apply eq_true_iff_eq; rewrite !is_following_spec; assumption.
Qed.

Lemma follow_and_unfollow_leave_other_edges_witness :
  fst (is_following Sample.bob Sample.alice
         (set_follow Sample.alice Sample.bob Sample.empty_graph)) = false
  /\ fst (is_following Sample.alice Sample.bob
            (set_unfollow Sample.bob Sample.alice Sample.feed)) = true.
Proof.
  assert (Hba : User.id Sample.bob <> User.id Sample.alice)
    by (intros E; discriminate E).
  assert (Hab : User.id Sample.alice <> User.id Sample.bob)
    by (intros E; discriminate E).
  split.
  - rewrite (proj1 (proj2 (proj2
               (follow_and_unfollow_leave_other_edges Sample.alice Sample.bob
                  Sample.bob Sample.alice Sample.empty_graph
                  (or_introl Hba))))).
    reflexivity.
  - rewrite (proj2 (proj2 (proj2
               (follow_and_unfollow_leave_other_edges Sample.bob Sample.alice
                  Sample.alice Sample.bob Sample.feed (or_introl Hab))))).
    reflexivity.
Defined.

(** ** The feed, continued *)

Lemma followed_posts_has_edge (a b : User.t) (s : FollowStore) (p : Post.t) :
  Post.author_id p = User.id b ->
  (In p (fst (followed_posts a s)) <-> In p (posts s) /\ has_edge a b s).
Proof.
  intros Hb. unfold followed_posts, has_edge. cbn [fst].
  rewrite in_flat_map. change (posts (flush_follows s)) with (posts s).
  split.
  - intros [q [Hq Hin]]. apply in_flat_map in Hin.
    destruct Hin as [f [Hf Hin]].
    destruct (sql_eq (Follow.followed_id f) (Post.author_id q)
              && sql_eq (Follow.follower_id f) (User.id a)) eqn:E;
      [| destruct Hin].
    destruct Hin as [<- | []]. apply andb_prop in E.
    split; [exact Hq |]. exists f. rewrite <- Hb. tauto.
  - intros [Hp [f (Hf & Ha & Hf2)]]. exists p. split; [exact Hp |].
    apply in_flat_map. exists f. split; [exact Hf |].
    rewrite Hb, Ha, Hf2. now left.
Qed.

Lemma posts_set_follow (a b : User.t) (s : FollowStore) :
  posts (set_follow a b s) = posts s.
Proof.
  unfold set_follow, is_following. destruct (first _); reflexivity.
Qed.

Lemma posts_set_unfollow (a b : User.t) (s : FollowStore) :
  posts (set_unfollow a b s) = posts s.
Proof. unfold set_unfollow. destruct (first _); reflexivity. Qed.

(** X13. The feed follows the graph: once [a] follows [b] (both with
    their keys), every post of the table written by [b] is in
    [a.followed_posts]; once [a] has unfollowed [b], none is; and neither
    call changes table [posts]. *)
Theorem followed_posts_tracks_follow_and_unfollow (a b : User.t)
    (s : FollowStore) (p : Post.t) (i j : Z) :
  User.id a = Some i -> User.id b = Some j ->
  Post.author_id p = Some j ->
  (In p (posts s) -> In p (fst (followed_posts a (set_follow a b s))))
  /\ ~ In p (fst (followed_posts a (set_unfollow a b s)))
  /\ posts (set_follow a b s) = posts s
  /\ posts (set_unfollow a b s) = posts s.
Proof.
  intros Ha Hb Hp. rewrite <- Hb in Hp.
  split; [| split; [| split]].
  - intros Hin. apply (followed_posts_has_edge a b _ p Hp).
    rewrite posts_set_follow. split; [exact Hin |].
    now apply set_follow_has_edge with i j.
  - intros Hin. apply (followed_posts_has_edge a b _ p Hp) in Hin.
    destruct Hin as [_ He].
    now apply (proj1 (set_unfollow_removes_edge a b s)).
  - apply posts_set_follow.
  - apply posts_set_unfollow.
Qed.

Lemma followed_posts_tracks_follow_and_unfollow_witness :
  In (Post.mk 2 "other" 15 (Some 3))
     (fst (followed_posts Sample.alice
             (set_follow Sample.alice
                (User.mk (Some 3) None (Some "carl") None None true None)
                Sample.feed)))
  /\ fst (followed_posts Sample.alice
            (set_unfollow Sample.alice Sample.bob Sample.feed)) = [].
Proof.
  split; [| reflexivity].
  apply (proj1 (followed_posts_tracks_follow_and_unfollow Sample.alice
                  (User.mk (Some 3) None (Some "carl") None None true None)
                  Sample.feed (Post.mk 2 "other" 15 (Some 3)) 1 3
                  eq_refl eq_refl eq_refl)).
  right; left; reflexivity.
Defined.

(** X14. When the keys of the follow rows are unique, as the primary key
    makes them, [followed_posts] yields, in some order, exactly the rows of
    table [posts] whose author the user follows, each as many times as the
    table holds it: a post is never multiplied by the join.  So the feed
    repeats no post when the table repeats none. *)
Theorem followed_posts_yields_each_post_once (self : User.t)
    (s : FollowStore) :
  NoDup (map follow_key (follows (flush_follows s))) ->
  Permutation
    (fst (followed_posts self s))
    (filter (by_followed self (follows (flush_follows s))) (posts s))
  /\ (NoDup (posts s) -> NoDup (fst (followed_posts self s))).
Proof.
  intros Hnd. pose proof (followed_posts_filter self s Hnd) as E.
  change (posts (flush_follows s)) with (posts s) in E.
  rewrite E. split; [apply Permutation_refl | apply NoDup_filter].
Qed.

Lemma followed_posts_yields_each_post_once_witness :
  Permutation
    (fst (followed_posts Sample.alice Sample.feed))
    [Post.mk 3 "second" 20 (Some 2); Post.mk 1 "first" 10 (Some 2)].
Proof.
  apply (Permutation_trans
           (proj1 (followed_posts_yields_each_post_once Sample.alice
                     Sample.feed
                     (NoDup_cons _ (fun H : In _ [] => H) (NoDup_nil _))))).
  apply perm_swap.
Defined.

(** ** Tokens *)

Section Tokens.
Context `{Signer}.

(** [loads] on a token [dumps] made with the same key. *)
Lemma loads_dumps (key : string) (issued now expires_in : Z) (obj : dict) :
  0 <= issued <= now ->
  loads key now (dumps key expires_in issued obj)
  = if now <=? issued + expires_in then Return obj
    else if issued + expires_in <? 0 then Raise BadSignature
         else Raise SignatureExpired.
Proof.
  intros Hi. unfold loads, dumps. cbn [signature iat exp payload].
  rewrite Z.eqb_refl. cbn [negb].
  destruct (Z.ltb_spec (issued + expires_in) 0);
    destruct (Z.ltb_spec (issued + expires_in) now);
    destruct (Z.leb_spec now (issued + expires_in));
    try reflexivity; lia.
Qed.

(** X15. A confirmation token confirms an identity exactly when it was
    issued for an identity with the same id and has not expired: from the
    time of issue up to [expiration] seconds later included, and never
    afterwards. *)
Theorem confirm_generated_token_iff (cfg : Config)
    (issued now expiration : Z) (self other : User.t) (s : UserStore) :
  0 <= issued <= now ->
  (confirm cfg now self
           (generate_confirmation_token cfg issued other expiration) s
   = (true, confirmed_user self, confirmed_store self s)
   <-> User.id other = User.id self /\ now <= issued + expiration)
  /\ (confirm cfg now self
              (generate_confirmation_token cfg issued other expiration) s
      = (false, self, s)
      <-> ~ (User.id other = User.id self /\ now <= issued + expiration)).
Proof.
  intros Hi.
  pose proof (confirm_cases cfg now self
                (generate_confirmation_token cfg issued other expiration) s)
    as Hc.
  unfold generate_confirmation_token in *.
  rewrite (loads_dumps _ issued now expiration _ Hi) in Hc.
  destruct (Z.leb_spec now (issued + expiration)) as [Hle | Hgt].
  - cbn [dict_get] in Hc. rewrite String.eqb_refl in Hc.
    destruct Hc as [Hdiff Hsame].
    destruct (option_Z_eq_dec (User.id other) (User.id self)) as [E | E].
    + rewrite (Hsame E). split; split; try tauto; try discriminate.
    + rewrite (Hdiff E). split; split; try tauto; try discriminate.
  - assert (Hf : confirm cfg now self
                   (dumps (SECRET_KEY cfg) expiration issued
                          [("confirm", User.id other)]) s
                 = (false, self, s))
      by (destruct (issued + expiration <? 0); exact Hc).
    rewrite Hf. split; split; try discriminate; try tauto; try lia.
Qed.

(** X16. Confirming again with the same token, while it is still valid,
    succeeds again: the identity stays as the first call left it, and the
    session and the ledger receive the same entry a second time. *)
Theorem confirm_twice_repeats_the_put (cfg : Config) (now later : Z)
    (self : User.t) (token : Token) (s : UserStore) :
  signature token
  = jws_signature (SECRET_KEY cfg) (iat token) (exp token) (payload token) ->
  0 <= exp token -> now <= exp token -> later <= exp token ->
  dict_get "confirm" (payload token) = User.id self ->
  confirm cfg now self token s
  = (true, confirmed_user self, confirmed_store self s)
  /\ confirm cfg later (confirmed_user self) token (confirmed_store self s)
     = (true, confirmed_user self,
        {| session_users :=
             (session_users s
              ++ [confirmed_user self; confirmed_user self])%list;
           user_ledger :=
             (user_ledger s
              ++ [Put ("weibo.user." ++ str (User.id self))
                      (UserSnapshot (confirmed_user self));
                  Put ("weibo.user." ++ str (User.id self))
                      (UserSnapshot (confirmed_user self))])%list |}).
Proof.
  intros Hs H0 Hn Hl Hi. split.
  - now apply confirm_valid_token.
  - rewrite (confirm_valid_token cfg later (confirmed_user self) token
               (confirmed_store self s) Hs H0 Hl Hi).
    unfold confirmed_store, confirmed_user.
    cbn [User.id User.email User.username User.password_hash User.role
         User.avatar_hash session_users user_ledger].
    now rewrite <- !app_assoc.
Qed.

Lemma query_get_Some (ident : option Z) (users : list User.t) (u : User.t) :
  query_get ident users = Some u ->
  In u users /\ exists i, ident = Some i /\ User.id u = Some i.
Proof.
  unfold query_get. intros E. apply first_filter_Some in E.
  destruct E as [Hin E]. split; [exact Hin |].
  apply sql_eq_Some in E. destruct E as [i [Hu Hi]]. now exists i.
Qed.

Lemma query_get_unique (users : list User.t) (u : User.t) (i : Z) :
  In u users -> User.id u = Some i ->
  (forall v, In v users -> User.id v = Some i -> v = u) ->
  query_get (Some i) users = Some u.
Proof.
  intros Hin Hu Huniq. unfold query_get.
  destruct (first_filter_exists (fun v => sql_eq (User.id v) (Some i)) users)
    as [v Ev].
  { exists u. split; [exact Hin |]. rewrite Hu. cbn. apply Z.eqb_refl. }
  rewrite Ev. apply first_filter_Some in Ev. destruct Ev as [Hv Ev].
  apply sql_eq_Some in Ev. destruct Ev as [k [Hk [= <-]]].
  now rewrite (Huniq v Hv Hk).
Qed.

(** X17. Authentication tokens round-trip: a token issued for a user who
    is in table [users] under a key no other row has resolves to that user
    from the time of issue until [expiration] seconds later included. *)
Theorem verify_generated_auth_token (cfg : Config)
    (issued now expiration : Z) (self : User.t) (users : list User.t)
    (i : Z) :
  0 <= issued <= now -> now <= issued + expiration ->
  In self users -> User.id self = Some i ->
  (forall v, In v users -> User.id v = Some i -> v = self) ->
  verify_auth_token cfg now
    (generate_auth_token cfg issued self expiration) users
  = inr (Some self).
Proof.
  intros Hi He Hin Hid Huniq.
  unfold verify_auth_token, generate_auth_token.
  rewrite (loads_dumps _ issued now expiration _ Hi).
  destruct (Z.leb_spec now (issued + expiration)); [| lia].
  cbn [dict_item]. rewrite String.eqb_refl, Hid.
  now rewrite (query_get_unique users self i Hin Hid Huniq).
Qed.

(** X18. [verify_auth_token] fails closed on the token itself: with an
    invalid signature or an expired token it returns [None], and a user it
    returns is a row of the table whose key is the id carried by a token
    that is validly signed and not expired. *)
Theorem verify_auth_token_sound (cfg : Config) (now : Z) (token : Token)
    (users : list User.t) :
  (signature token
   <> jws_signature (SECRET_KEY cfg) (iat token) (exp token) (payload token)
   \/ exp token < now ->
   verify_auth_token cfg now token users = inr None)
  /\ (forall u,
        verify_auth_token cfg now token users = inr (Some u) ->
        signature token
        = jws_signature (SECRET_KEY cfg) (iat token) (exp token)
                        (payload token)
        /\ now <= exp token
        /\ In u users
        /\ exists i, User.id u = Some i
                     /\ dict_item "id" (payload token) = Some (Some i)).
Proof.
  unfold verify_auth_token.
  destruct (loads (SECRET_KEY cfg) now token) as [data | e] eqn:El.
  - apply loads_Return in El. destruct El as (Hs & H0 & Hn & ->).
    split; [intros [Hbad | Hexp]; [contradiction | lia] |].
    intros u Hu. destruct (dict_item "id" (payload token)) as [ident|];
      [| discriminate].
    injection Hu as Hu. apply query_get_Some in Hu.
    destruct Hu as [Hin [i [-> Hi]]]. repeat split; auto. now exists i.
  - split; [reflexivity | discriminate].
Qed.

(** X19. The two kinds of token are not interchangeable, and the two
    checks fail differently.  A valid confirmation token given to
    [verify_auth_token] is not refused: the subscript [data['id']] ends in
    [KeyError].  A valid authentication token given to [confirm] never
    confirms an identity that has its key; it does confirm one whose [id]
    is still [None]. *)
Theorem token_kinds_are_not_interchangeable (cfg : Config)
    (issued now expiration : Z) (self other : User.t) (s : UserStore)
    (users : list User.t) :
  0 <= issued <= now -> now <= issued + expiration ->
  verify_auth_token cfg now
    (generate_confirmation_token cfg issued other expiration) users
  = inl (KeyError "id")
  /\ (confirm cfg now self
              (generate_auth_token cfg issued other expiration) s
      = (true, confirmed_user self, confirmed_store self s)
      <-> User.id self = None)
  /\ (confirm cfg now self
              (generate_auth_token cfg issued other expiration) s
      = (false, self, s)
      <-> User.id self <> None).
Proof.
  intros Hi He. split.
  - unfold verify_auth_token, generate_confirmation_token.
    rewrite (loads_dumps _ issued now expiration _ Hi).
    destruct (Z.leb_spec now (issued + expiration)); [reflexivity | lia].
  - pose proof (confirm_cases cfg now self
                  (generate_auth_token cfg issued other expiration) s) as Hc.
    unfold generate_auth_token in *.
    rewrite (loads_dumps _ issued now expiration _ Hi) in Hc.
    destruct (Z.leb_spec now (issued + expiration)); [| lia].
    cbn [dict_get] in Hc.
    replace (String.eqb "confirm" "id") with false in Hc by reflexivity.
    destruct Hc as [Hdiff Hsame].
    destruct (User.id self) as [k|] eqn:Ek.
    + rewrite Hdiff by discriminate.
      split; split; try discriminate; try tauto.
    + rewrite Hsame by reflexivity.
      split; split; try discriminate; try tauto.
Qed.
End Tokens.

Lemma confirm_generated_token_iff_witness :
  (@confirm Sample.signer Sample.cfg 3700 Sample.alice Sample.alice_token
            Sample.no_users
   = (true, confirmed_user Sample.alice,
      confirmed_store Sample.alice Sample.no_users))
  /\ (@confirm Sample.signer Sample.cfg 3701 Sample.alice Sample.alice_token
               Sample.no_users
      = (false, Sample.alice, Sample.no_users)).
Proof.
  split.
  - apply (proj1 (@confirm_generated_token_iff Sample.signer Sample.cfg 100
                    3700 3600 Sample.alice Sample.alice Sample.no_users
                    ltac:(lia))).
    split; [reflexivity | vm_compute; discriminate].
  - apply (proj2 (@confirm_generated_token_iff Sample.signer Sample.cfg 100
                    3701 3600 Sample.alice Sample.alice Sample.no_users
                    ltac:(lia))).
    intros [_ Hle]. vm_compute in Hle. apply Hle. reflexivity.
Defined.

Lemma confirm_twice_repeats_the_put_witness :
  user_ledger
    (snd (@confirm Sample.signer Sample.cfg 300
            (confirmed_user Sample.alice) Sample.alice_token
            (confirmed_store Sample.alice Sample.no_users)))
  = [Put "weibo.user.1" (UserSnapshot (confirmed_user Sample.alice));
     Put "weibo.user.1" (UserSnapshot (confirmed_user Sample.alice))].
Proof.
  rewrite (proj2 (@confirm_twice_repeats_the_put Sample.signer Sample.cfg
                    200 300 Sample.alice Sample.alice_token Sample.no_users
                    eq_refl ltac:(vm_compute; discriminate)
                    ltac:(vm_compute; discriminate)
                    ltac:(vm_compute; discriminate) eq_refl)).
  reflexivity.
Defined.

Lemma verify_generated_auth_token_witness :
  @verify_auth_token Sample.signer Sample.cfg 150
    (@generate_auth_token Sample.signer Sample.cfg 100 Sample.bob 60)
    Demo.users
  = inr (Some Sample.bob).
Proof.
  apply (@verify_generated_auth_token Sample.signer Sample.cfg 100 150 60
           Sample.bob Demo.users 2); try lia; try reflexivity.
  - right; left; reflexivity.
  - intros v [<- | [<- | []]] E; [discriminate E | reflexivity].
Defined.

Lemma verify_auth_token_sound_witness :
  @verify_auth_token Sample.signer Sample.cfg 161
    (@generate_auth_token Sample.signer Sample.cfg 100 Sample.bob 60)
    Demo.users
  = inr None.
Proof.
  apply (proj1 (@verify_auth_token_sound Sample.signer Sample.cfg 161
                  (@generate_auth_token Sample.signer Sample.cfg 100
                     Sample.bob 60)
                  Demo.users)).
  right. vm_compute. reflexivity.
Defined.

Lemma token_kinds_are_not_interchangeable_witness :
  @verify_auth_token Sample.signer Sample.cfg 200 Sample.alice_token
    Demo.users
  = inl (KeyError "id")
  /\ @confirm Sample.signer Sample.cfg 150 Demo.carol
       (@generate_auth_token Sample.signer Sample.cfg 100 Sample.bob 60)
       Sample.no_users
     = (true, confirmed_user Demo.carol,
        confirmed_store Demo.carol Sample.no_users).
Proof.
  split.
  - apply (@token_kinds_are_not_interchangeable Sample.signer Sample.cfg
             100 200 3600 Sample.alice Sample.alice Sample.no_users
             Demo.users); lia.
  - apply (proj1 (proj2 (@token_kinds_are_not_interchangeable Sample.signer
                           Sample.cfg 100 150 60 Demo.carol Sample.bob
                           Sample.no_users Demo.users
                           ltac:(lia) ltac:(lia)))).
    reflexivity.
Defined.

(** ** Avatars *)

Lemma le_bytes_length (n : nat) (x : Z) : List.length (MD5.le_bytes n x) = n.
Proof. unfold MD5.le_bytes. now rewrite length_map, length_seq. Qed.

Lemma le_bytes_range (n : nat) (x b : Z) :
  In b (MD5.le_bytes n x) -> 0 <= b < 256.
Proof.
  unfold MD5.le_bytes. intros Hin. apply in_map_iff in Hin.
  destruct Hin as [k [<- _]]. change 255 with (Z.ones 8).
  rewrite Z.land_ones by lia. apply Z.mod_pos_bound. reflexivity.
Qed.

Lemma digest_bytes (msg : list Z) :
  List.length (MD5.digest msg) = 16%nat
  /\ forall b, In b (MD5.digest msg) -> 0 <= b < 256.
Proof.
  unfold MD5.digest. destruct (MD5.blocks _ _ _) as [[[a b] c] d].
  split.
  - now rewrite !length_app, !le_bytes_length.
  - intros x Hin. repeat (apply in_app_or in Hin; destruct Hin as [Hin | Hin]);
      now apply le_bytes_range in Hin.
Qed.

Lemma hex_length (bs : list Z) :
  String.length (MD5.hex bs) = (2 * List.length bs)%nat.
Proof.
  induction bs as [|b bs IH]; [reflexivity |].
  cbn [MD5.hex String.length List.length]. rewrite IH. lia.
Qed.

Lemma hex_digits_of_byte (b : Z) :
  0 <= b < 256 ->
  is_hex_digit (MD5.hex_digit (Z.shiftr b 4)) = true
  /\ is_hex_digit (MD5.hex_digit (Z.land b 0xf)) = true.
Proof.
  intros Hb.
  assert (Hall : forallb
            (fun x => is_hex_digit (MD5.hex_digit (Z.shiftr x 4))
                      && is_hex_digit (MD5.hex_digit (Z.land x 0xf)))
            (map Z.of_nat (seq 0 256)) = true) by (vm_compute; reflexivity).
  rewrite forallb_forall in Hall. apply andb_prop. apply Hall.
  apply in_map_iff. exists (Z.to_nat b). split; [lia |].
  apply in_seq. lia.
Qed.

Lemma hex_all_digits (bs : list Z) :
  (forall b, In b bs -> 0 <= b < 256) ->
  forallb is_hex_digit (list_ascii_of_string (MD5.hex bs)) = true.
Proof.
  induction bs as [|b bs IH]; intros Hr; [reflexivity |].
  cbn [MD5.hex list_ascii_of_string forallb].
  destruct (hex_digits_of_byte b (Hr b (or_introl eq_refl))) as [-> ->].
  cbn [andb]. apply IH. intros x Hx. apply Hr. now right.
Qed.

Lemma md5_hexdigest_shape (data : list Z) :
  String.length (md5_hexdigest data) = 32%nat
  /\ forallb is_hex_digit (list_ascii_of_string (md5_hexdigest data)) = true.
Proof.
  unfold md5_hexdigest. destruct (digest_bytes data) as [Hlen Hrange].
  split.
  - now rewrite hex_length, Hlen.
  - now apply hex_all_digits.
Qed.

Lemma truthy_md5_hexdigest (data : list Z) :
  truthy (Some (md5_hexdigest data)) = Some (md5_hexdigest data).
Proof.
  pose proof (proj1 (md5_hexdigest_shape data)) as Hlen.
  destruct (md5_hexdigest data); [discriminate Hlen | reflexivity].
Qed.

Lemma User_init_avatar_hash `{Database} (cfg : Config) (kwargs : User.t)
    (s : RoleStore) :
  User.avatar_hash (fst (User_init cfg kwargs s))
  = match User.email kwargs, User.avatar_hash kwargs with
    | Some email, None => Some (md5_hexdigest (encode_utf8 email))
    | _, given => given
    end
  /\ User.email (fst (User_init cfg kwargs s)) = User.email kwargs.
Proof.
  destruct kwargs as [i e u ph r c a].
  destruct r, e, a; split; reflexivity.
Qed.

(** X20. The fingerprint [__init__] stores for an identity created with an
    email and no fingerprint is always a string of exactly 32 lowercase
    hexadecimal digits, whatever the email: it fits column [avatar_hash],
    a [String(32)], and is never the empty string. *)
Theorem avatar_hash_is_32_hex_digits `{Database} (cfg : Config)
    (kwargs : User.t) (s : RoleStore) (email : string) :
  User.email kwargs = Some email ->
  User.avatar_hash kwargs = None ->
  exists h,
    User.avatar_hash (fst (User_init cfg kwargs s)) = Some h
    /\ String.length h = 32%nat
    /\ forallb is_hex_digit (list_ascii_of_string h) = true.
Proof.
  intros He Ha. exists (md5_hexdigest (encode_utf8 email)).
  destruct (User_init_avatar_hash cfg kwargs s) as [E _].
  rewrite He, Ha in E. split; [exact E | apply md5_hexdigest_shape].
Qed.


(** X22. Storing the fingerprint changes no URL: for an identity created
    with an email and no fingerprint, [gravatar] on the created object (which
    reads the stored fingerprint) returns the URL it returns on the same
    attributes without a stored fingerprint (where it hashes the email
    again), and that URL is the host for the transport, the MD5 digest of
    the email and the three parameters. *)
Theorem gravatar_of_created_user `{Database} (cfg : Config)
    (kwargs : User.t) (s : RoleStore) (email : string) (is_secure : bool)
    (size : Z) (default rating : string) :
  User.email kwargs = Some email ->
  User.avatar_hash kwargs = None ->
  gravatar is_secure (fst (User_init cfg kwargs s)) size default rating
  = gravatar is_secure kwargs size default rating
  /\ gravatar is_secure kwargs size default rating
     = Return ((if is_secure then "https://secure.gravatar.com/avatar"
                else "http://www.gravatar.com/avatar")
               ++ "/" ++ md5_hexdigest (encode_utf8 email)
               ++ "?s=" ++ str_int size ++ "&d=" ++ default
               ++ "&r=" ++ rating).
Proof.
  intros He Ha. destruct (User_init_avatar_hash cfg kwargs s) as [Eh Em].
  rewrite He, Ha in Eh. unfold gravatar.
  rewrite Eh, Em, He, Ha, truthy_md5_hexdigest. cbn [truthy].
  split; reflexivity.
Qed.

Lemma avatar_hash_is_32_hex_digits_witness :
  exists h,
    User.avatar_hash (fst (@User_init Sample.database Sample.cfg
                             Sample.upper_case_signup Sample.no_roles))
    = Some h
    /\ String.length h = 32%nat
    /\ forallb is_hex_digit (list_ascii_of_string h) = true.
Proof.
  exact (@avatar_hash_is_32_hex_digits Sample.database Sample.cfg
           Sample.upper_case_signup Sample.no_roles "A@b.c"
           eq_refl eq_refl).
Defined.

Lemma gravatar_of_created_user_witness :
  gravatar true
    (fst (@User_init Sample.database Sample.cfg Sample.lower_case_signup
            Sample.no_roles))
    100 "identicon" "g"
  = Return
      "https://secure.gravatar.com/avatar/5d60d4e28066df254d5452f92c910092?s=100&d=identicon&r=g".
Proof.
  destruct (@gravatar_of_created_user Sample.database Sample.cfg
              Sample.lower_case_signup Sample.no_roles "a@b.c" true 100
              "identicon" "g" eq_refl eq_refl) as [E1 E2].
  rewrite E1, E2. vm_compute. reflexivity.
Defined.

(** ** Passwords *)


(** ** The migration *)

Section MigrationFacts.
Import Migration.

Lemma get_set_table (n : string) (t t0 : Table) (db : Schema) :
  get_table n db = Some t0 -> get_table n (set_table n t db) = Some t.
Proof.
  induction db as [|[m old] db IH]; [discriminate |].
  cbn [get_table set_table]. destruct (String.eqb m n) eqn:E.
  - intros _. cbn [get_table]. now rewrite E.
  - intros Hg. cbn [get_table]. rewrite E. now apply IH.
Qed.

Lemma get_set_table_other (n n' : string) (t : Table) (db : Schema) :
  n' <> n -> get_table n' (set_table n t db) = get_table n' db.
Proof.
  intros Hne. induction db as [|[m old] db IH]; [reflexivity |].
  cbn [set_table]. destruct (String.eqb m n) eqn:E; cbn [get_table].
  - apply String.eqb_eq in E. subst m.
    destruct (String.eqb n n') eqn:E'; [| reflexivity].
    apply String.eqb_eq in E'. congruence.
  - now rewrite IH.
Qed.

Lemma set_set_table (n : string) (t1 t2 : Table) (db : Schema) :
  set_table n t2 (set_table n t1 db) = set_table n t2 db.
Proof.
  induction db as [|[m old] db IH]; [reflexivity |].
  cbn [set_table]. destruct (String.eqb m n) eqn:E; cbn [set_table];
    rewrite E; [reflexivity | now rewrite IH].
Qed.

Lemma set_table_same (n : string) (t : Table) (db : Schema) :
  get_table n db = Some t -> set_table n t db = db.
Proof.
  induction db as [|[m old] db IH]; [reflexivity |].
  cbn [get_table set_table]. destruct (String.eqb m n).
  - now intros [= ->].
  - intros Hg. now rewrite IH.
Qed.

(** Table [t] without column [c]. *)
Lemma has_column_dropped (c : string) (cols : list Column)
    (rws : list (list (string * option string))) :
  has_column c
    {| columns := filter (fun col => negb (String.eqb (col_name col) c)) cols;
       rows := rws |} = false.
Proof.
  unfold has_column. cbn [columns].
  induction cols as [|col cols IH]; [reflexivity |].
  cbn [filter]. destruct (String.eqb (col_name col) c) eqn:E; cbn [negb].
  - exact IH.
  - cbn [existsb]. now rewrite E, IH.
Qed.

Lemma has_column_added (col : Column) (t : Table)
    (rws : list (list (string * option string))) :
  has_column (col_name col)
    {| columns := (columns t ++ [col])%list; rows := rws |} = true.
Proof.
  unfold has_column. cbn [columns]. rewrite existsb_app. cbn.
  rewrite String.eqb_refl. apply orb_true_r.
Qed.

Lemma upgrade_Some (db db1 : Schema) :
  upgrade db = Some db1 ->
  exists t,
    get_table "posts" db = Some t
    /\ has_column "language" t = true
    /\ db1 = set_table "posts"
               {| columns :=
                    filter (fun col =>
                              negb (String.eqb (col_name col) "language"))
                           (columns t);
                  rows :=
                    map (filter (fun kv =>
                                   negb (String.eqb (fst kv) "language")))
                        (rows t) |}
               db.
Proof.
  unfold upgrade, drop_column.
  destruct (get_table "posts" db) as [t|]; [| discriminate].
  destruct (has_column "language" t) eqn:E; [| discriminate].
  intros [= <-]. now exists t.
Qed.

Lemma downgrade_Some (db db1 : Schema) :
  downgrade db = Some db1 ->
  exists t,
    get_table "posts" db = Some t
    /\ has_column "language" t = false
    /\ db1 = set_table "posts"
               {| columns :=
                    (columns t
                     ++ [{| col_name := "language"; col_type := "VARCHAR(5)";
                            nullable := true |}])%list;
                  rows :=
                    map (fun row => (row ++ [("language", None)])%list)
                        (rows t) |}
               db.
Proof.
  unfold downgrade, add_column. cbn [col_name].
  destruct (get_table "posts" db) as [t|]; [| discriminate].
  destruct (has_column "language" t) eqn:E; [discriminate |].
  intros [= <-]. now exists t.
Qed.

(** X24. [upgrade] then [downgrade] brings column [language] of table
    [posts] back, as the last column, but not its contents: every row holds
    [NULL] in it.  The other columns and their values, and the other
    tables, are as before. *)
Theorem upgrade_then_downgrade_loses_language (db db1 : Schema) :
  upgrade db = Some db1 ->
  exists db2 t t2,
    downgrade db1 = Some db2
    /\ get_table "posts" db = Some t
    /\ get_table "posts" db2 = Some t2
    /\ columns t2
       = (filter (fun col => negb (String.eqb (col_name col) "language"))
                 (columns t)
          ++ [{| col_name := "language"; col_type := "VARCHAR(5)";
                 nullable := true |}])%list
    /\ rows t2
       = map (fun row =>
                (filter (fun kv => negb (String.eqb (fst kv) "language")) row
                 ++ [("language", None)])%list)
             (rows t)
    /\ (forall other, other <> "posts" ->
                      get_table other db2 = get_table other db).
Proof.
  intros Hu. apply upgrade_Some in Hu. destruct Hu as [t (Hg & Hc & ->)].
  eexists _, t, _. unfold downgrade, add_column. cbn [col_name].
  rewrite (get_set_table "posts" _ t db Hg), has_column_dropped.
  rewrite set_set_table. cbn [columns rows].
  split; [reflexivity | split; [exact Hg | split]].
  - now apply get_set_table with t.
  - split; [reflexivity | split].
    + now rewrite map_map.
    + intros other Hne. now apply get_set_table_other.
Qed.

Lemma upgrade_then_downgrade_loses_language_witness :
  exists db2 t2,
    Migration.downgrade Demo.after_migration = Some db2
    /\ Migration.get_table "posts" db2 = Some t2
    /\ Migration.rows t2
       = [[("id", Some "1"); ("body", Some "hello"); ("language", None)]].
Proof.
  destruct (upgrade_then_downgrade_loses_language Demo.before_migration
              Demo.after_migration eq_refl)
    as (db2 & t & t2 & Hd & Hg & Hg2 & _ & Hr & _).
  exists db2, t2. split; [exact Hd | split; [exact Hg2 |]].
  rewrite Hr. injection Hg as <-. reflexivity.
Defined.

(** X25. [downgrade] then [upgrade] is the identity: when the rows of
    [posts] hold no value under the name [language], the database after
    the two steps is the database before. *)
Theorem downgrade_then_upgrade_restores (db db1 : Schema) :
  downgrade db = Some db1 ->
  (forall t row kv,
      get_table "posts" db = Some t -> In row (rows t) -> In kv row ->
      fst kv <> "language") ->
  upgrade db1 = Some db.
Proof.
  intros Hd Hrows. apply downgrade_Some in Hd.
  destruct Hd as [t (Hg & Hc & ->)].
  unfold upgrade, drop_column.
  rewrite (get_set_table "posts" _ t db Hg).
  rewrite (has_column_added
             {| col_name := "language"; col_type := "VARCHAR(5)";
                nullable := true |} t).
  rewrite set_set_table. cbn [columns rows]. f_equal.
  apply set_table_same. rewrite Hg. f_equal.
  destruct t as [cols rws]. cbn [columns rows] in *. f_equal.
  - symmetry. rewrite filter_app. cbn. rewrite app_nil_r. apply filter_all.
    intros col Hin. apply negb_true_iff.
    destruct (String.eqb (col_name col) "language") eqn:E; [| reflexivity].
    unfold has_column in Hc. cbn [columns] in Hc.
    assert (Hex : existsb (fun c => String.eqb (col_name c) "language") cols
                  = true)
      by (apply existsb_exists; now exists col).
    congruence.
  - symmetry. rewrite map_map. rewrite <- (map_id rws) at 2.
    apply map_ext_in.
    intros row Hin. rewrite filter_app. cbn. rewrite app_nil_r.
    apply filter_all. intros kv Hkv. apply negb_true_iff.
    apply String.eqb_neq. exact (Hrows _ row kv Hg Hin Hkv).
Qed.

Lemma downgrade_then_upgrade_restores_witness :
  exists db1,
    Migration.downgrade Demo.after_migration = Some db1
    /\ Migration.upgrade db1 = Some Demo.after_migration.
Proof.
  eexists. split; [reflexivity |].
  apply (downgrade_then_upgrade_restores Demo.after_migration _ eq_refl).
  intros t row kv [= <-] [<- | []] [<- | [<- | []]]; discriminate.
Defined.

(** X26. Neither step can be run twice in a row: after a successful
    [upgrade] a second [upgrade] is refused, and after a successful
    [downgrade] a second [downgrade] is refused; in both cases the first
    step's result is what stays. *)
Theorem migration_steps_do_not_repeat (db db1 : Schema) :
  (upgrade db = Some db1 -> upgrade db1 = None)
  /\ (downgrade db = Some db1 -> downgrade db1 = None).
Proof.
  split.
  - intros Hu. apply upgrade_Some in Hu. destruct Hu as [t (Hg & _ & ->)].
    unfold upgrade, drop_column.
    now rewrite (get_set_table "posts" _ t db Hg), has_column_dropped.
  - intros Hd. apply downgrade_Some in Hd. destruct Hd as [t (Hg & _ & ->)].
    unfold downgrade, add_column. cbn [col_name].
    rewrite (get_set_table "posts" _ t db Hg).
    now rewrite (has_column_added
                   {| col_name := "language"; col_type := "VARCHAR(5)";
                      nullable := true |} t).
Qed.

Lemma migration_steps_do_not_repeat_witness :
  Migration.upgrade Demo.after_migration = None.
Proof.
  exact (proj1 (migration_steps_do_not_repeat Demo.before_migration
                  Demo.after_migration) eq_refl).
Defined.
End MigrationFacts.

(** ** Ledger keys *)

Lemma to_int_not_nil (z : Z) :
  Z.to_int z <> Decimal.Pos Decimal.Nil
  /\ Z.to_int z <> Decimal.Neg Decimal.Nil.
Proof.
  destruct z as [|p|p]; cbn; split; try discriminate;
    intros [= E]; exact (Unsigned.to_uint_nonnil p E).
Qed.

Lemma int_of_str_int (z : Z) :
  NilZero.int_of_string (str_int z) = Some (Z.to_int z).
Proof.
  unfold str_int. destruct (to_int_not_nil z) as [Hp Hn].
  now apply NilZero.isi.
Qed.

Lemma str_int_inj (a b : Z) : str_int a = str_int b -> a = b.
Proof.
  intros E. apply to_int_inj.
  pose proof (int_of_str_int a) as Ha. rewrite E, int_of_str_int in Ha.
  congruence.
Qed.

Lemma str_inj (x y : option Z) : str x = str y -> x = y.
Proof.
  assert (Hnone : forall z, str_int z <> "None").
  { intros z E. pose proof (int_of_str_int z) as Hz. rewrite E in Hz.
    discriminate Hz. }
  destruct x as [a|], y as [b|]; cbn [str]; intros E.
  - f_equal. now apply str_int_inj.
  - exfalso. exact (Hnone a E).
  - exfalso. symmetry in E. exact (Hnone b E).
  - reflexivity.
Qed.

Lemma append_inj_l (prefix a b : string) :
  prefix ++ a = prefix ++ b -> a = b.
Proof.
  induction prefix as [|c prefix IH]; cbn; [auto |].
  intros [= E]. auto.
Qed.

Lemma no_slash_uint (d : Decimal.uint) :
  no_slash (NilEmpty.string_of_uint d) = true.
Proof. induction d; cbn; auto. Qed.

Lemma no_slash_str (x : option Z) : no_slash (str x) = true.
Proof.
  destruct x as [z|]; [| reflexivity].
  unfold str, str_int, NilZero.string_of_int, NilZero.string_of_uint.
  destruct (Z.to_int z) as [d | d]; destruct d; cbn;
    try reflexivity; apply no_slash_uint.
Qed.

Lemma split_at_slash (s1 s2 t1 t2 : string) :
  no_slash s1 = true -> no_slash s2 = true ->
  s1 ++ "/" ++ t1 = s2 ++ "/" ++ t2 -> s1 = s2 /\ t1 = t2.
Proof.
  revert s2. induction s1 as [|c s1 IH]; intros [|c' s2] H1 H2 E; cbn in *.
  - injection E as E. auto.
  - injection E as Ec E. subst c'. discriminate H2.
  - injection E as Ec E. subst c. discriminate H1.
  - injection E as Ec E. subst c'.
    apply andb_prop in H1, H2. destruct H1 as [_ H1], H2 as [_ H2].
    destruct (IH s2 H1 H2 E) as [-> ->]. auto.
Qed.

Lemma confirm_true (signer : Signer) (cfg : Config) (now : Z)
    (self self' : User.t) (token : Token) (s s' : UserStore) :
  @confirm signer cfg now self token s = (true, self', s') ->
  s' = confirmed_store self s.
Proof.
  intros E. pose proof (@confirm_cases signer cfg now self token s) as Hc.
  destruct (@loads signer (SECRET_KEY cfg) now token) as [data | e].
  - destruct (option_Z_eq_dec (dict_get "confirm" data) (User.id self))
      as [Hi | Hi].
    + rewrite (proj2 Hc Hi) in E. now injection E as _ <-.
    + rewrite (proj1 Hc Hi) in E. discriminate E.
  - rewrite Hc in E. discriminate E.
Qed.

(** X27. The ledger calls made for records that have their keys never
    share a ledger key.  When [set_unfollow] removes the edge from [a] to
    [b] and, in any other state, the edge from [c] to [d], all four users
    with ids, the keys of the two deletes are equal only if [a] and [c]
    have the same id and [b] and [d] have the same id.  When [confirm]
    succeeds for two identities with ids, the keys of the two puts are
    equal only if the ids are equal. *)
Theorem unfollow_and_confirm_keys_tell_records_apart :
  (forall (a b c d : User.t) (s s' : FollowStore) (i j k l : Z),
      User.id a = Some i -> User.id b = Some j ->
      User.id c = Some k -> User.id d = Some l ->
      has_edge a b s -> has_edge c d s' ->
      exists key key',
        follow_ledger (set_unfollow a b s)
        = (follow_ledger s ++ [Delete key])%list
        /\ follow_ledger (set_unfollow c d s')
           = (follow_ledger s' ++ [Delete key'])%list
        /\ (key = key' -> i = k /\ j = l))
  /\ (forall (signer : Signer) (cfg : Config) (now now' : Z)
             (u v u1 v1 : User.t) (token token' : Token)
             (s s' s1 s1' : UserStore) (i k : Z),
        User.id u = Some i -> User.id v = Some k ->
        @confirm signer cfg now u token s = (true, u1, s1) ->
        @confirm signer cfg now' v token' s' = (true, v1, s1') ->
        exists key key' snap snap',
          user_ledger s1 = (user_ledger s ++ [Put key snap])%list
          /\ user_ledger s1' = (user_ledger s' ++ [Put key' snap'])%list
          /\ (key = key' -> i = k)).
Proof.
  split.
  - intros a b c d s s' i j k l Ha Hb Hc Hd He He'.
    destruct (has_edge_first a b s He) as [f Ef].
    destruct (has_edge_first c d s' He') as [g Eg].
    destruct (set_unfollow_present a b s f Ef) as (-> & Fa & Fb).
    destruct (set_unfollow_present c d s' g Eg) as (-> & Ga & Gb).
    rewrite Ha in Fa. rewrite Hb in Fb. rewrite Hc in Ga. rewrite Hd in Gb.
    apply sql_eq_Some in Fa, Fb, Ga, Gb.
    destruct Fa as [? [-> [= ->]]], Fb as [? [-> [= ->]]],
      Ga as [? [-> [= ->]]], Gb as [? [-> [= ->]]].
    eexists _, _. split; [reflexivity | split; [reflexivity |]].
    intros E. apply append_inj_l in E.
    apply split_at_slash in E; try apply no_slash_str.
    destruct E as [E1 E2]. apply str_inj in E1, E2.
    split; congruence.
  - intros signer cfg now now' u v u1 v1 token token' s s' s1 s1' i k
           Hu Hv Eu Ev.
    apply confirm_true in Eu, Ev. subst s1 s1'.
    eexists _, _, _, _. split; [reflexivity | split; [reflexivity |]].
    intros E. apply append_inj_l in E. apply str_inj in E. congruence.
Qed.

Lemma unfollow_and_confirm_keys_tell_records_apart_witness :
  exists key key',
    follow_ledger (set_unfollow Sample.alice Sample.bob Sample.feed)
    = [Delete key]
    /\ follow_ledger
         (set_unfollow Sample.bob Sample.alice
            (set_follow Sample.bob Sample.alice Sample.empty_graph))
       = [Put "weibo.follow.None/None" (FollowSnapshot None None None);
          Delete key']
    /\ (key = key' -> 1 = 2 /\ 2 = 1).
Proof.
  apply (proj1 unfollow_and_confirm_keys_tell_records_apart
           Sample.alice Sample.bob Sample.bob Sample.alice Sample.feed
           (set_follow Sample.bob Sample.alice Sample.empty_graph)
           1 2 2 1 eq_refl eq_refl eq_refl eq_refl).
  - exists (Follow.mk (Some 1) (Some 2) (Some 5)).
    split; [left; reflexivity | split; reflexivity].
  - exists (Follow.mk (Some 2) (Some 1) (Some 1000)).
    split; [left; reflexivity | split; reflexivity].
Defined.
